(** * Uday's portfolio: the driving scene and the Gemini gateway

    A shallow embedding of [src/components/World.tsx] (vehicle controller,
    crate physics, proximity triggers, camera rig) and of
    [src/services/geminiService.ts] (video generation, image editing),
    followed by the properties of the specification that are settled on it.

    Numbers.  A JavaScript number is modelled by a real number: arithmetic
    is exact, [Math.sqrt], [Math.sin] and [Math.cos] are the real functions,
    and there is no NaN, no infinity and no rounding.  Every statement below
    is therefore a statement in exact arithmetic.

    Objects.  A [THREE.Vector3] is a mutable object.  The body of a frame
    callback is run on a store of vector objects: the methods of three.js
    act on references, mutate the receiver and return it, as the library
    does, and only [new] and [clone] allocate.  The store of a callback
    holds the long-lived vectors the callback reaches, in a fixed layout,
    followed by the vectors it creates; these are unreachable once the
    callback returns.  Between callbacks the scene is a record of the
    values of its long-lived vectors, which are distinct objects, each
    created once by the hooks. *)

From Stdlib Require Import Reals Lra Psatz.
From Stdlib Require Import Ascii String List.
From stdpp Require Import gmap strings.
Import ListNotations.

Local Open Scope R_scope.

(** ** JavaScript numbers *)

Module JS.

Definition ltb (a b : R) : bool := if Rlt_dec a b then true else false.
Definition gtb (a b : R) : bool := ltb b a.
(** [a !== b] on numbers. *)
Definition neqb (a b : R) : bool := if Req_dec_T a b then false else true.

(** [Math.sign]. *)
Definition sign (a : R) : R :=
  if ltb 0 a then 1 else if ltb a 0 then -1 else a.

(** [a || b] on numbers: [a] unless it is zero. *)
Definition or_else (a b : R) : R := if neqb a 0 then a else b.

Lemma ltb_true a b : ltb a b = true <-> a < b.
Proof. unfold ltb. destruct (Rlt_dec a b); split; intros; try easy. Qed.

Lemma ltb_false a b : ltb a b = false <-> b <= a.
Proof.
  unfold ltb. destruct (Rlt_dec a b); split; intros; try easy; lra.
Qed.

Lemma neqb_true a b : neqb a b = true <-> a <> b.
Proof. unfold neqb. destruct (Req_dec_T a b); split; intros; easy. Qed.

Lemma neqb_false a b : neqb a b = false <-> a = b.
Proof.
  unfold neqb. destruct (Req_dec_T a b); split; intros; try easy.
Qed.

End JS.

(** ** three.js: [Vector3] and [MathUtils] *)

Module Three.

Record Vector3 := mkVector3 { x : R; y : R; z : R }.

(** The store of vector objects.  A reference is the allocation index. *)
Definition Ref := nat.
Record Heap := mkHeap { next : Ref; cell : Ref -> Vector3 }.

Definition upd (f : Ref -> Vector3) (r : Ref) (v : Vector3) : Ref -> Vector3 :=
  fun r' => if Nat.eqb r' r then v else f r'.

(** Computations over the store. *)
Definition M (A : Type) : Type := Heap -> A * Heap.
Definition ret {A} (a : A) : M A := fun h => (a, h).
Definition bind {A B} (m : M A) (k : A -> M B) : M B :=
  fun h => let (a, h') := m h in k a h'.

Declare Scope heap_scope.
Delimit Scope heap_scope with heap.
Notation "v <- m ;; k" := (bind m (fun v => k))
  (at level 100, m at next level, right associativity) : heap_scope.
Notation "m ;; k" := (bind m (fun _ => k))
  (at level 100, right associativity) : heap_scope.
Local Open Scope heap_scope.

(** The store holding the given vectors, in order. *)
Definition store (vs : list Vector3) : Heap :=
  mkHeap (List.length vs) (fun r => nth r vs (mkVector3 0 0 0)).

Definition get (r : Ref) : M Vector3 := fun h => (cell h r, h).
Definition put (r : Ref) (v : Vector3) : M unit :=
  fun h => (tt, mkHeap (next h) (upd (cell h) r v)).

(** [new THREE.Vector3(a, b, c)] *)
Definition new_Vector3 (a b c : R) : M Ref :=
  fun h => (next h, mkHeap (S (next h)) (upd (cell h) (next h) (mkVector3 a b c))).

(** Field assignments [r.x = a], [r.y = a], [r.z = a]. *)
Definition set_x (r : Ref) (a : R) : M unit :=
  v <- get r ;; put r (mkVector3 a (y v) (z v)).
Definition set_y (r : Ref) (a : R) : M unit :=
  v <- get r ;; put r (mkVector3 (x v) a (z v)).
Definition set_z (r : Ref) (a : R) : M unit :=
  v <- get r ;; put r (mkVector3 (x v) (y v) a).

(** [r.set(a, b, c)] *)
Definition set (r : Ref) (a b c : R) : M Ref :=
  put r (mkVector3 a b c) ;; ret r.

(** [r.clone()] *)
Definition clone (r : Ref) : M Ref :=
  v <- get r ;; new_Vector3 (x v) (y v) (z v).

(** [r.copy(s)] *)
Definition copy (r s : Ref) : M Ref :=
  v <- get s ;; put r v ;; ret r.

(** [r.add(s)]: adds [s] to [r] in place. *)
Definition add (r s : Ref) : M Ref :=
  a <- get r ;; b <- get s ;;
  put r (mkVector3 (x a + x b) (y a + y b) (z a + z b)) ;; ret r.

(** [r.subVectors(a, b)]: [r] becomes [a - b]. *)
Definition subVectors (r a b : Ref) : M Ref :=
  u <- get a ;; v <- get b ;;
  put r (mkVector3 (x u - x v) (y u - y v) (z u - z v)) ;; ret r.

(** [r.multiplyScalar(s)]: scales [r] in place and returns [r] itself. *)
Definition multiplyScalar (r : Ref) (s : R) : M Ref :=
  v <- get r ;; put r (mkVector3 (x v * s) (y v * s) (z v * s)) ;; ret r.

(** [r.divideScalar(s)] is [r.multiplyScalar(1 / s)]. *)
Definition divideScalar (r : Ref) (s : R) : M Ref :=
  multiplyScalar r (1 / s).

Definition norm (v : Vector3) : R :=
  sqrt (x v * x v + y v * y v + z v * z v).

(** [r.length()] *)
Definition length (r : Ref) : M R := v <- get r ;; ret (norm v).

(** [r.normalize()] is [r.divideScalar(r.length() || 1)]. *)
Definition normalize (r : Ref) : M Ref :=
  l <- length r ;; divideScalar r (JS.or_else l 1).

Definition distSq (u v : Vector3) : R :=
  let dx := x u - x v in
  let dy := y u - y v in
  let dz := z u - z v in
  dx * dx + dy * dy + dz * dz.

Definition dist (u v : Vector3) : R := sqrt (distSq u v).

(** [r.distanceTo(s)] is [Math.sqrt(r.distanceToSquared(s))]. *)
Definition distanceTo (r s : Ref) : M R :=
  u <- get r ;; v <- get s ;; ret (dist u v).

(** [MathUtils.clamp(value, min, max)] is
    [Math.max(min, Math.min(max, value))]. *)
Definition clamp (value lo hi : R) : R := Rmax lo (Rmin hi value).

(** [u.dot(v)], on the values of the two vectors. *)
Definition dot (u v : Vector3) : R := x u * x v + y u * y v + z u * z v.

(** [r.lerp(s, alpha)]: moves [r] towards [s] in place. *)
Definition lerp (r s : Ref) (alpha : R) : M Ref :=
  a <- get r ;; b <- get s ;;
  put r (mkVector3 (x a + (x b - x a) * alpha) (y a + (y b - y a) * alpha)
                   (z a + (z b - z a) * alpha)) ;;
  ret r.

End Three.

(** ** The vehicle controller: [useCarController] *)

Module Car.
Import Three.
Local Open Scope heap_scope.

(** [CarApi]: the two vector objects shared with the collision system,
    and the collision radius. *)
Record CarApi := mkCarApi { position : Ref; velocity : Ref; radius : R }.

(** The memoised api, with [radius: 2.0].  In the store of a callback
    the position is the first vector and the velocity the second. *)
Definition api : CarApi := mkCarApi 0%nat 1%nat 2.0.

(** What the hook keeps besides the two vectors: the [isBraking] ref, the
    React state [rotation] and the [keys] ref, an object from key codes
    to booleans. *)
Record Controller := mkController {
  isBraking : bool;
  rotation : R;
  keys : gmap string bool
}.

(** [keys.current[code]] in a condition: a missing key is [undefined],
    which is falsy. *)
Definition held (ks : gmap string bool) (code : string) : bool :=
  match ks !! code with Some true => true | _ => false end.

Definition onKeyDown (code : string) (c : Controller) : Controller :=
  mkController (isBraking c) (rotation c) (<[code := true]> (keys c)).

Definition onKeyUp (code : string) (c : Controller) : Controller :=
  mkController (isBraking c) (rotation c) (<[code := false]> (keys c)).

Definition friction : R := 0.97.
Definition bound : R := 95.

(** Input handling: [throttle] starts at 0, [+= 1] on up, [-= 1] on down. *)
Definition throttleOf (ks : gmap string bool) : R :=
  let throttle := 0 in
  let throttle :=
    if held ks "ArrowUp" || held ks "KeyW" then throttle + 1 else throttle in
  let throttle :=
    if held ks "ArrowDown" || held ks "KeyS" then throttle - 1 else throttle in
  throttle.

(** Steering: the two functional updates of [setRotation], in order. *)
Definition steer (ks : gmap string bool) (rotSpeed r : R) : R :=
  let r :=
    if held ks "ArrowLeft" || held ks "KeyA" then r + rotSpeed else r in
  let r :=
    if held ks "ArrowRight" || held ks "KeyD" then r - rotSpeed else r in
  r.

(** Physics Constants and Check direction: the acceleration in use. *)
Definition accAmountOf (ks : gmap string bool) : R :=
  let isShiftPressed := held ks "ShiftLeft" || held ks "ShiftRight" in
  let fwdSpeed := if isShiftPressed then 80 else 40 in
  let revSpeed := 30 in
  if JS.gtb (throttleOf ks) 0 then fwdSpeed else revSpeed.

(** Apply Throttle: the block guarded by [throttle !== 0]. *)
Definition applyThrottle (api : CarApi) (rot throttle accAmount delta : R)
  : M unit :=
  if JS.neqb throttle 0 then
    let dirX := sin rot in
    let dirZ := cos rot in
    v <- get (velocity api) ;;
    set_x (velocity api) (x v - dirX * throttle * accAmount * delta) ;;
    v <- get (velocity api) ;;
    set_z (velocity api) (z v - dirZ * throttle * accAmount * delta)
  else ret tt.

(** Apply Velocity to Position:
    [position.current.clone().add(velocity.current.clone().multiplyScalar(delta))]. *)
Definition integrate (api : CarApi) (delta : R) : M Ref :=
  p <- clone (position api) ;;
  v <- clone (velocity api) ;;
  v <- multiplyScalar v delta ;;
  add p v.

(** Bounds Check on [newPos], with the bounce on the velocity. *)
Definition boundsCheck (api : CarApi) (newPos : Ref) : M unit :=
  p <- get newPos ;;
  (if JS.gtb (Rabs (x p)) bound then
     set_x newPos (JS.sign (x p) * bound) ;;
     v <- get (velocity api) ;;
     set_x (velocity api) (x v * -0.5)
   else ret tt) ;;
  p <- get newPos ;;
  (if JS.gtb (Rabs (z p)) bound then
     set_z newPos (JS.sign (z p) * bound) ;;
     v <- get (velocity api) ;;
     set_z (velocity api) (z v * -0.5)
   else ret tt).

(** The [useFrame] callback.  The result is the controller after the
    frame and the speed handed to [soundManager.updateEngine], if the
    frame gets that far. *)
Definition frame (api : CarApi) (delta : R) (c : Controller)
  : M (Controller * option R) :=
  if held (keys c) "KeyR" then
    set (velocity api) 0 0 0 ;;
    set (position api) 0 0.5 0 ;;
    ret (mkController (isBraking c) 0 (keys c), None)
  else
    let rotSpeed := 3.0 * delta in
    let throttle := throttleOf (keys c) in
    let rotation' := steer (keys c) rotSpeed (rotation c) in
    let accAmount := accAmountOf (keys c) in
    applyThrottle api (rotation c) throttle accAmount delta ;;
    let isBraking' := JS.ltb throttle 0 in
    newPos <- integrate api delta ;;
    boundsCheck api newPos ;;
    copy (position api) newPos ;;
    multiplyScalar (velocity api) friction ;;
    currentSpeed <- length (velocity api) ;;
    ret (mkController isBraking' rotation' (keys c), Some currentSpeed).

(** The vehicle between frames: the values of its two vectors, and the
    controller. *)
Record State := mkState {
  pos : Vector3;
  vel : Vector3;
  ctl : Controller
}.

(** The hook's initial state: [useRef(new THREE.Vector3(0, 0.5, 0))],
    [useRef(new THREE.Vector3(0, 0, 0))], [useRef(false)], [useState(0)]
    and [useRef({})]. *)
Definition init : State :=
  mkState (mkVector3 0 0.5 0) (mkVector3 0 0 0) (mkController false 0 ∅).

(** The store a frame starts from. *)
Definition storeOf (s : State) : Heap := store [pos s; vel s].

(** One frame: the state after it, and the speed handed to the engine
    sound. *)
Definition step (delta : R) (s : State) : State * option R :=
  let (r, h) := frame api delta (ctl s) (storeOf s) in
  (mkState (cell h (position api)) (cell h (velocity api)) (fst r), snd r).

(** Frames in sequence, one [delta] per frame, with no key event in
    between. *)
Fixpoint steps (deltas : list R) (s : State) : State :=
  match deltas with
  | [] => s
  | delta :: rest => steps rest (fst (step delta s))
  end.

(** None of the movement, steering and reset keys is held. *)
Definition noInput (ks : gmap string bool) : Prop :=
  Forall (fun code => held ks code = false)
    ["KeyR"; "ArrowUp"; "KeyW"; "ArrowDown"; "KeyS";
     "ArrowLeft"; "KeyA"; "ArrowRight"; "KeyD"]%string.

(** The position is strictly within the bound, on both planar axes, after
    every frame of the run. *)
Fixpoint inside (deltas : list R) (s : State) : Prop :=
  match deltas with
  | [] => True
  | delta :: rest =>
      let s' := fst (step delta s) in
      Rabs (x (pos s')) < bound /\ Rabs (z (pos s')) < bound
      /\ inside rest s'
  end.

(** [velocity.current.length()] *)
Definition speed (s : State) : R := norm (vel s).

End Car.

(** ** Destructible crates: [CrateSystem] *)

Module Crates.
Import Three.
Local Open Scope heap_scope.

(** [CrateData].  The [rotation] is a [THREE.Euler]; its three angles are
    kept in a cell of the same store. *)
Record CrateData := mkCrateData {
  id : R;
  position : Ref;
  velocity : Ref;
  rotation : Ref;
  color : string
}.

(** What the frame touches of a [THREE.Mesh]. *)
Record Mesh := mkMesh { mesh_position : Ref; mesh_rotation : Ref }.

(** Collision with Car: the body of [if (dist < minDist)].  The result is
    the strength passed to [soundManager.playImpact], if any. *)
Definition collide (carApi : Car.CarApi) (crate : CrateData)
           (dist minDist : R) : M (option R) :=
  let carPos := Car.position carApi in
  let carVel := Car.velocity carApi in
  d <- new_Vector3 0 0 0 ;;
  d <- subVectors d (position crate) carPos ;;
  direction <- normalize d ;;
  l <- length carVel ;;
  let impactForce := l * 1.5 in
  forceVec <- multiplyScalar direction impactForce ;;
  set_y forceVec (Rmin (impactForce * 0.5) 10) ;;
  add (velocity crate) forceVec ;;
  c <- clone direction ;;
  pushOut <- multiplyScalar c (minDist - dist) ;;
  add (position crate) pushOut ;;
  ret (if JS.gtb impactForce 5 then Some (impactForce / 20) else None).

(** Gravity, or rest on the ground with ground friction. *)
Definition gravity (crate : CrateData) (delta : R) : M unit :=
  p <- get (position crate) ;;
  if JS.gtb (y p) 0.5 then
    v <- get (velocity crate) ;;
    set_y (velocity crate) (y v - 20 * delta)
  else
    set_y (velocity crate) 0 ;;
    set_y (position crate) 0.5 ;;
    multiplyScalar (velocity crate) 0.90 ;;
    ret tt.

(** [crate.position.add(crate.velocity.clone().multiplyScalar(delta))] and
    the cosmetic spin. *)
Definition move (crate : CrateData) (delta : R) : M unit :=
  t <- clone (velocity crate) ;;
  t <- multiplyScalar t delta ;;
  add (position crate) t ;;
  v <- get (velocity crate) ;;
  e <- get (rotation crate) ;;
  set_x (rotation crate) (x e + z v * delta * 0.5) ;;
  v <- get (velocity crate) ;;
  e <- get (rotation crate) ;;
  set_z (rotation crate) (z e - x v * delta * 0.5).

(** The test of [if (dist < minDist)] and its branch. *)
Definition collision (carApi : Car.CarApi) (crate : CrateData)
  : M (option R) :=
  dist <- distanceTo (position crate) (Car.position carApi) ;;
  let minDist := Car.radius carApi + 0.8 in
  if JS.ltb dist minDist then collide carApi crate dist minDist
  else ret None.

(** The callback of [crates.current.forEach] for crate [i]. *)
Definition crateStep (carApi : Car.CarApi) (meshRefs : gmap nat Mesh)
           (delta : R) (i : nat) (crate : CrateData) : M (option R) :=
  match meshRefs !! i with
  | None => ret None
  | Some mesh =>
      gravity crate delta ;;
      move crate delta ;;
      sound <- collision carApi crate ;;
      copy (mesh_position mesh) (position crate) ;;
      copy (mesh_rotation mesh) (rotation crate) ;;
      ret sound
  end.

(** A crate between frames: the values of its vectors and, when its mesh
    is mounted, of the vectors of the mesh. *)
Record Shown := mkShown { shown_position : Vector3; shown_rotation : Vector3 }.
Record State := mkState {
  pos : Vector3;
  vel : Vector3;
  rot : Vector3;
  mesh : option Shown
}.

(** The store the callback runs on for one crate: the vehicle's position
    and velocity, then the crate's position, velocity and rotation, then
    the position and rotation of its mesh. *)
Definition slot : CrateData := mkCrateData 0 2%nat 3%nat 4%nat EmptyString.
Definition meshSlot : Mesh := mkMesh 5%nat 6%nat.

Definition storeOf (carPos carVel : Vector3) (c : State) : Heap :=
  let shown := default (mkShown (mkVector3 0 0 0) (mkVector3 0 0 0)) (mesh c) in
  store [carPos; carVel; pos c; vel c; rot c;
         shown_position shown; shown_rotation shown].

(** One crate in one frame: the crate after it, and the impact sound. *)
Definition step (carPos carVel : Vector3) (delta : R) (c : State)
  : State * option R :=
  let meshRefs : gmap nat Mesh :=
    match mesh c with Some _ => {[ 0%nat := meshSlot ]} | None => ∅ end in
  let (sound, h) :=
    crateStep Car.api meshRefs delta 0 slot (storeOf carPos carVel c) in
  (mkState (cell h (position slot)) (cell h (velocity slot))
     (cell h (rotation slot))
     (match mesh c with
      | Some _ => Some (mkShown (cell h (mesh_position meshSlot))
                                (cell h (mesh_rotation meshSlot)))
      | None => None
      end),
   sound).

(** The store of the callback when it comes to the collision test, and
    the outcome of the test [dist < minDist]. *)
Definition moved (carPos carVel : Vector3) (delta : R) (c : State) : Heap :=
  snd ((gravity slot delta ;; move slot delta) (storeOf carPos carVel c)).

Definition hits (carPos carVel : Vector3) (delta : R) (c : State) : bool :=
  let h := moved carPos carVel delta c in
  JS.ltb (dist (cell h (position slot)) (cell h (Car.position Car.api)))
         (Car.radius Car.api + 0.8).

(** Where gravity and the move take a crate that starts the frame above
    the resting height, and one that does not. *)
Definition fallen (delta : R) (c : State) : Vector3 :=
  mkVector3 (x (pos c) + x (vel c) * delta)
            (y (pos c) + (y (vel c) - 20 * delta) * delta)
            (z (pos c) + z (vel c) * delta).

Definition rested (delta : R) (c : State) : Vector3 :=
  mkVector3 (x (pos c) + x (vel c) * 0.90 * delta)
            (0.5 + 0 * 0.90 * delta)
            (z (pos c) + z (vel c) * 0.90 * delta).

(** The [useFrame] callback: every crate in turn, against the vehicle as
    it is in this frame; the impact sounds played, in order. *)
Definition frame (carPos carVel : Vector3) (delta : R) (crates : list State)
  : list State * list R :=
  (List.map (fun c => fst (step carPos carVel delta c)) crates,
   omap (fun c => snd (step carPos carVel delta c)) crates).

(** Frames in sequence for one crate, the vehicle standing where it
    is. *)
Fixpoint steps (carPos carVel : Vector3) (deltas : list R) (c : State)
  : State :=
  match deltas with
  | [] => c
  | delta :: rest =>
      steps carPos carVel rest (fst (step carPos carVel delta c))
  end.

(** No frame of the run finds the crate within reach of the vehicle. *)
Fixpoint untouched (carPos carVel : Vector3) (deltas : list R) (c : State)
  : Prop :=
  match deltas with
  | [] => True
  | delta :: rest =>
      hits carPos carVel delta c = false
      /\ untouched carPos carVel rest (fst (step carPos carVel delta c))
  end.

(** The crates of the wall, as the initialisation loops create them: [x]
    from -5 to 5 and, for each, [y] from 0 to 2, at
    [(x * 1.5 - 20, 0.5 + y * 1.1, 15)], at rest, mesh mounted. *)
Definition wallCrate (ix iy : Z) : State :=
  let p := mkVector3 (IZR ix * 1.5 - 20) (0.5 + IZR iy * 1.1) 15 in
  mkState p (mkVector3 0 0 0) (mkVector3 0 0 0)
          (Some (mkShown p (mkVector3 0 0 0))).

Definition wall : list State :=
  List.flat_map (fun ix => List.map (wallCrate ix) [0; 1; 2]%Z)
    [-5; -4; -3; -2; -1; 0; 1; 2; 3; 4; 5]%Z.

End Crates.

(** ** Trigger zones: [SectionTrigger] and the Enter key of [SceneContent] *)

Module Triggers.
Import Three.

(** [AppSection] of [types.ts]. *)
Inductive AppSection :=
| HOME | VEO_STUDIO | IMAGE_EDITOR | CONTACT | ABOUT | SKILLS.

(** The activation radius, written [6] at both places of the source. *)
Definition activationRadius : R := 6.

(** The [useFrame] callback of [SectionTrigger]: the value handed to
    [setActive], from the zone's [position] prop and the vehicle
    position [carPos.current]. *)
Definition active (position : R * R * R) (carPos : Vector3) : bool :=
  let '(px, py, pz) := position in
  let dist := Three.dist carPos (mkVector3 px py pz) in
  JS.ltb dist activationRadius.

Record Trigger := mkTrigger {
  pos : Vector3;
  section : AppSection;
  text : string;
  color : string;
  subtext : string
}.

(** [t.pos.toArray()] *)
Definition toArray (v : Vector3) : R * R * R := (x v, y v, z v).

(** The five zones of [SceneContent]. *)
Definition triggers : list Trigger :=
  [ mkTrigger (mkVector3 0 0 (-25)) ABOUT "About Me" "#6366f1" "The Developer";
    mkTrigger (mkVector3 25 0 0) SKILLS "Skills" "#10b981" "Tech Stack";
    mkTrigger (mkVector3 0 0 25) CONTACT "Contact" "#f59e0b" "Get in Touch";
    mkTrigger (mkVector3 (-25) 0 (-8)) VEO_STUDIO "Veo Studio" "#9333ea"
              "Generative Video";
    mkTrigger (mkVector3 (-25) 0 8) IMAGE_EDITOR "Magic Editor" "#3b82f6"
              "Image Editing" ].

(** The distance in the ground plane, which the specification speaks
    of; the source has no such function. *)
Definition planarDist (u v : Vector3) : R :=
  sqrt ((x u - x v) * (x u - x v) + (z u - z v) * (z u - z v)).

Definition inRange (carPos : Vector3) (t : Trigger) : bool :=
  JS.ltb (Three.dist (pos t) carPos) activationRadius.

(** [handleKeyDown]: the section passed to [onSectionEnter], if the
    callback is called.  [Array.prototype.find] is [List.find]: the first
    element, in array order, that satisfies the predicate. *)
Definition handleKeyDown (ts : list Trigger) (carPos : Vector3)
           (key : string) : option AppSection :=
  if String.eqb key "Enter" then
    match List.find (inRange carPos) ts with
    | Some closest => Some (section closest)
    | None => None
    end
  else None.

End Triggers.

(** ** The camera rig: the wheel handler of [CameraHandler] *)

Module Camera.

(** [useRef(20)] *)
Definition initialDistance : R := 20.

(** [onWheel], registered with the current [isOverlayOpen]: the new
    value of [distance.current]. *)
Definition onWheel (isOverlayOpen : bool) (deltaY : R) (distance : R) : R :=
  if isOverlayOpen then distance
  else Three.clamp (distance + deltaY * 0.02) 5 40.

(** A wheel event: the overlay flag in force when it fires, and [deltaY]. *)
Definition wheels (events : list (bool * R)) (distance : R) : R :=
  fold_left (fun d e => onWheel (fst e) (snd e) d) events distance.

End Camera.

(** ** The AI gateway: [geminiService.ts] *)

Module Gemini.
Local Open Scope string_scope.

(** The outcome of an awaited call: a value, or a thrown error with its
    message. *)
Inductive result (A : Type) : Type :=
| Ok (a : A)
| Throw (message : string).
Arguments Ok {A} a.
Arguments Throw {A} message.

Definition rbind {A B} (m : result A) (k : A -> result B) : result B :=
  match m with
  | Ok a => k a
  | Throw e => Throw e
  end.

Definition is_Throw {A} (r : result A) : bool :=
  match r with Ok _ => false | Throw _ => true end.

(** [s.split(sep)] for a separator of one character. *)
Fixpoint split (sep : Ascii.ascii) (s : string) : list string :=
  match s with
  | EmptyString => [EmptyString]
  | String c rest =>
      if Ascii.eqb c sep then EmptyString :: split sep rest
      else match split sep rest with
           | [] => [String c EmptyString]
           | piece :: pieces => String c piece :: pieces
           end
  end.

(** A value inside a template literal: [undefined] prints as such. *)
Definition template (o : option string) : string :=
  match o with Some s => s | None => "undefined" end.

(** A string in a condition: empty and [undefined] are falsy. *)
Definition truthy (o : option string) : bool :=
  match o with
  | Some EmptyString | None => false
  | Some _ => true
  end.

Record File := mkFile { file_name : string; file_type : string }.

Inductive AspectRatio := Landscape16x9 | Portrait9x16.

(** The request of [ai.models.generateVideos]. *)
Record VideoRequest := mkVideoRequest {
  vr_model : string;
  vr_prompt : string;
  vr_imageBytes : option string;
  vr_mimeType : string;
  vr_numberOfVideos : nat;
  vr_resolution : string;
  vr_aspectRatio : AspectRatio
}.

(** The long-running operation, with the optional chain
    [response?.generatedVideos?.[0]?.video?.uri]. *)
Record Video := mkVideo { uri : option string }.
Record GeneratedVideo := mkGeneratedVideo { video : option Video }.
Record VideosResponse := mkVideosResponse {
  generatedVideos : option (list GeneratedVideo)
}.
Record Operation := mkOperation {
  op_name : string;
  done : bool;
  response : option VideosResponse
}.

Definition videoUriOf (operation : Operation) : option string :=
  match response operation with
  | None => None
  | Some r =>
      match generatedVideos r with
      | Some (g :: _) =>
          match video g with
          | Some v => uri v
          | None => None
          end
      | _ => None
      end
  end.

(** The response of [fetch]: its [ok] flag and the outcome of [blob()]. *)
Record FetchResponse := mkFetchResponse {
  ok : bool;
  blob : result string
}.

(** The request and response of [ai.models.generateContent]. *)
Record InlineData := mkInlineData {
  data : option string;
  mimeType : option string
}.
Record Part := mkPart {
  inlineData : option InlineData;
  part_text : option string
}.
Record ContentRequest := mkContentRequest {
  cr_model : string;
  cr_parts : list Part
}.
Record Content := mkContent { parts : option (list Part) }.
Record Candidate := mkCandidate { content : option Content }.
Record GenerateContentResponse := mkGenerateContentResponse {
  candidates : option (list Candidate)
}.

(** Everything outside the module that the two functions call: the
    environment variable, the [FileReader], the SDK, [fetch] and
    [URL.createObjectURL].  The status request takes the number of
    requests made before it, so that successive requests may answer
    differently. *)
Record Environment := mkEnvironment {
  API_KEY : option string;
  readAsDataURL : File -> result string;
  generateVideos : VideoRequest -> result Operation;
  getVideosOperation : nat -> Operation -> result Operation;
  fetch : string -> result FetchResponse;
  createObjectURL : string -> string;
  generateContent : ContentRequest -> result GenerateContentResponse
}.

(** [fileToBase64] *)
Definition fileToBase64 (env : Environment) (file : File) : result string :=
  readAsDataURL env file.

(** The polling loop [while (!operation.done)], after [polled] status
    requests.  [None]: the loop is still running when the fuel is spent. *)
Fixpoint pollLoop (env : Environment) (fuel polled : nat)
         (operation : Operation) : option (result Operation) :=
  if done operation then Some (Ok operation)
  else
    match fuel with
    | O => None
    | S fuel' =>
        match getVideosOperation env polled operation with
        | Throw e => Some (Throw e)
        | Ok operation' => pollLoop env fuel' (S polled) operation'
        end
    end.

(** The operation in hand after [k] more status requests, for stating
    when the loop ends. *)
Fixpoint opAfter (env : Environment) (polled : nat) (operation : Operation)
         (k : nat) : result Operation :=
  match k with
  | O => Ok operation
  | S k' =>
      rbind (getVideosOperation env polled operation)
        (fun operation' => opAfter env (S polled) operation' k')
  end.

(** The address fetched: [`${videoUri}&key=${process.env.API_KEY}`]. *)
Definition downloadUrl (env : Environment) (operation : Operation) : string :=
  template (videoUriOf operation) ++ "&key=" ++ template (API_KEY env).

(** What follows the loop. *)
Definition download (env : Environment) (operation : Operation)
  : result string :=
  let videoUri := videoUriOf operation in
  if negb (truthy videoUri) then Throw "No video URI returned"
  else
    rbind (fetch env (downloadUrl env operation))
      (fun response =>
         if negb (ok response) then Throw "Failed to download video"
         else rbind (blob response) (fun b => Ok (createObjectURL env b))).

Definition videoRequest (data : option string) (mimeType : string)
           (prompt : string) (aspectRatio : AspectRatio) : VideoRequest :=
  mkVideoRequest "veo-3.1-fast-generate-preview"
    (if truthy (Some prompt) then prompt
     else "Animate this image cinematographically")
    data mimeType 1 "1080p" aspectRatio.

(** [generateVideo]; the default of [aspectRatio] is ['16:9']. *)
Definition generateVideo (env : Environment) (fuel : nat) (imageFile : File)
           (prompt : string) (aspectRatio : option AspectRatio)
  : option (result string) :=
  let aspectRatio := default Landscape16x9 aspectRatio in
  match fileToBase64 env imageFile with
  | Throw e => Some (Throw e)
  | Ok base64Image =>
      let data := nth_error (split ","%char base64Image) 1 in
      let mimeType := file_type imageFile in
      match generateVideos env (videoRequest data mimeType prompt aspectRatio) with
      | Throw e => Some (Throw e)
      | Ok operation =>
          match pollLoop env fuel 0 operation with
          | None => None
          | Some (Throw e) => Some (Throw e)
          | Some (Ok operation) => Some (download env operation)
          end
      end
  end.

(** The parts the loop of [editImage] runs over:
    [response.candidates?.[0]?.content?.parts || []]. *)
Definition responseParts (response : GenerateContentResponse) : list Part :=
  match candidates response with
  | Some (c :: _) =>
      match content c with
      | Some ct => default [] (parts ct)
      | None => []
      end
  | _ => []
  end.

(** Extract image from response: the [for ... of] loop and the final
    [throw]. *)
Fixpoint extractImage (ps : list Part) : result string :=
  match ps with
  | [] => Throw "No image generated in response"
  | part :: rest =>
      match inlineData part with
      | Some i =>
          let base64EncodeString := data i in
          Ok ("data:image/png;base64," ++ template base64EncodeString)
      | None => extractImage rest
      end
  end.

Definition contentRequest (data : option string) (mimeType : string)
           (prompt : string) : ContentRequest :=
  mkContentRequest "gemini-2.5-flash-image"
    [ mkPart (Some (mkInlineData data (Some mimeType))) None;
      mkPart None (Some prompt) ].

(** [editImage] *)
Definition editImage (env : Environment) (imageFile : File)
           (prompt : string) : result string :=
  rbind (fileToBase64 env imageFile) (fun base64Image =>
    let data := nth_error (split ","%char base64Image) 1 in
    let mimeType := file_type imageFile in
    rbind (generateContent env (contentRequest data mimeType prompt))
      (fun response => extractImage (responseParts response))).

End Gemini.

(** ** Sample environments of the gateway *)

Module Samples.
Import Gemini.
Local Open Scope string_scope.

Definition photo : File := mkFile "photo.jpg" "image/jpeg".

Definition pending : Operation := mkOperation "operations/1" false None.

Definition finished (u : option string) : Operation :=
  mkOperation "operations/1" true
    (Some (mkVideosResponse (Some [mkGeneratedVideo (Some (mkVideo u))]))).

(** The model answers with a sentence and then a JPEG. *)
Definition editedResponse : GenerateContentResponse :=
  mkGenerateContentResponse
    (Some [mkCandidate
             (Some (mkContent
                      (Some [mkPart None (Some "Here is your image.");
                             mkPart (Some (mkInlineData (Some "QUJD")
                                                        (Some "image/jpeg")))
                                    None])))]).

(** The job is done at the third status request; the download works. *)
Definition envGood : Environment :=
  mkEnvironment (Some "k")
    (fun _ => Ok "data:image/jpeg;base64,AAAA")
    (fun _ => Ok pending)
    (fun polled _ =>
       Ok (if Nat.ltb polled 2 then pending
           else finished (Some "https://videos/1?alt=media")))
    (fun _ => Ok (mkFetchResponse true (Ok "bytes")))
    (fun b => "blob:" ++ b)
    (fun _ => Ok editedResponse).

(** As [envGood], but reading the body of the download fails. *)
Definition envBodyFails : Environment :=
  mkEnvironment (Some "k")
    (fun _ => Ok "data:image/jpeg;base64,AAAA")
    (fun _ => Ok pending)
    (fun polled _ =>
       Ok (if Nat.ltb polled 2 then pending
           else finished (Some "https://videos/1?alt=media")))
    (fun _ => Ok (mkFetchResponse true (Throw "network error")))
    (fun b => "blob:" ++ b)
    (fun _ => Ok editedResponse).

(** The submission itself is refused. *)
Definition envRefused : Environment :=
  mkEnvironment None
    (fun _ => Ok "data:image/jpeg;base64,AAAA")
    (fun _ => Throw "API key not valid")
    (fun _ o => Ok o)
    (fun _ => Ok (mkFetchResponse true (Ok "bytes")))
    (fun b => "blob:" ++ b)
    (fun _ => Throw "API key not valid").

(** Two zones in range of the origin, the farther one listed first. *)
Definition twoZones : list Triggers.Trigger :=
  [ Triggers.mkTrigger (Three.mkVector3 5 0 0) Triggers.ABOUT
      "About Me" "#6366f1" "The Developer";
    Triggers.mkTrigger (Three.mkVector3 1 0 0) Triggers.SKILLS
      "Skills" "#10b981" "Tech Stack" ].

End Samples.

(** ** The sound manager: [SoundManager] *)

Module Sound.

Inductive ContextState := Suspended | Running.

(** [ctx] is null until [init]; [engineOsc] and [engineGain] are assigned
    with it and never again, so the three are null together.  [created]
    counts the audio contexts constructed. *)
Record SoundManager := mkSoundManager {
  ctx : option ContextState;
  isInit : bool;
  created : nat
}.

(** [const soundManager = new SoundManager()] *)
Definition soundManager : SoundManager := mkSoundManager None false 0.

(** [init()]; [fresh] is the state the browser gives a new context. *)
Definition init (fresh : ContextState) (m : SoundManager) : SoundManager :=
  if isInit m then m
  else mkSoundManager (Some fresh) true (S (created m)).

(** The targets handed to [setTargetAtTime]. *)
Record EngineUpdate := mkEngineUpdate { frequencyTarget : R; gainTarget : R }.

(** [updateEngine(speed)] *)
Definition updateEngine (m : SoundManager) (speed : R)
  : SoundManager * option EngineUpdate :=
  match ctx m with
  | None => (m, None)
  | Some _ =>
      (* ctx.resume() when suspended *)
      let m' := mkSoundManager (Some Running) (isInit m) (created m) in
      let pitch := 60 + speed * 5 in
      let volume := Rmin (0.1 + speed * 0.01) 0.3 in
      (m', Some (mkEngineUpdate pitch (if JS.gtb speed 0.1 then volume else 0)))
  end.

(** The oscillator of an impact: frequency and gain at the start and at
    the end of the ramps, and the time it lasts. *)
Record Impact := mkImpact {
  startFrequency : R;
  endFrequency : R;
  startGain : R;
  endGain : R;
  duration : R
}.

(** [playImpact(strength)]; [random] is the value of [Math.random()]. *)
Definition playImpact (m : SoundManager) (strength random : R) : option Impact :=
  match ctx m with
  | None => None
  | Some _ =>
      Some (mkImpact (100 + random * 200) 40 (Rmin (strength * 0.5) 0.8) 0.01 0.3)
  end.

End Sound.

(** ** The vehicle with its keyboard and its engine sound *)

Module Drive.
Import Three.

(** What the window sends to the hook: key events, handled by [onKeyDown]
    (which also initialises the sound) and [onKeyUp], and frames. *)
Inductive Event :=
| KeyDown (code : string) (fresh : Sound.ContextState)
| KeyUp (code : string)
| Frame (delta : R).

Record World := mkWorld {
  car : Car.State;
  sound : Sound.SoundManager;
  engine : option Sound.EngineUpdate
}.

Definition withCtl (s : Car.State) (c : Car.Controller) : Car.State :=
  Car.mkState (Car.pos s) (Car.vel s) c.

(** The frame, with the call [soundManager.updateEngine(currentSpeed)] that
    ends it; [engine] keeps the targets last set. *)
Definition frame (delta : R) (w : World) : World :=
  let (s', heard) := Car.step delta (car w) in
  match heard with
  | Some currentSpeed =>
      let (m', u) := Sound.updateEngine (sound w) currentSpeed in
      mkWorld s' m' (match u with Some _ => u | None => engine w end)
  | None => mkWorld s' (sound w) (engine w)
  end.

Definition handle (w : World) (e : Event) : World :=
  match e with
  | KeyDown code fresh =>
      mkWorld (withCtl (car w) (Car.onKeyDown code (Car.ctl (car w))))
              (Sound.init fresh (sound w)) (engine w)
  | KeyUp code =>
      mkWorld (withCtl (car w) (Car.onKeyUp code (Car.ctl (car w))))
              (sound w) (engine w)
  | Frame delta => frame delta w
  end.

Definition run (events : list Event) (w : World) : World :=
  fold_left handle events w.

Definition start : World := mkWorld Car.init Sound.soundManager None.

(** The conditions the frame tests on the keys. *)
Definition accelerating (ks : gmap string bool) : bool :=
  Car.held ks "ArrowUp" || Car.held ks "KeyW".
Definition reversing (ks : gmap string bool) : bool :=
  Car.held ks "ArrowDown" || Car.held ks "KeyS".
Definition boosting (ks : gmap string bool) : bool :=
  Car.held ks "ShiftLeft" || Car.held ks "ShiftRight".
Definition steeringLeft (ks : gmap string bool) : bool :=
  Car.held ks "ArrowLeft" || Car.held ks "KeyA".
Definition steeringRight (ks : gmap string bool) : bool :=
  Car.held ks "ArrowRight" || Car.held ks "KeyD".

(** The sum of the frame times of a run. *)
Definition elapsed (deltas : list R) : R := fold_right Rplus 0 deltas.

End Drive.

(** ** The vehicle on screen: the [useFrame] callback of [Car] *)

Module CarView.
Import Three.

(** Wheel Spin Calculation: the angle taken from [rotation.x] of each of
    the four wheels. *)
Definition wheelRot (vel : Vector3) (rotation delta : R) : R :=
  let fwd := mkVector3 (- sin rotation) 0 (- cos rotation) in
  let speed := dot vel fwd in
  speed * delta * 2.5.

(** Brake Lights: [emissiveIntensity] and the colour set with [setHex]. *)
Definition tailLight (isBraking : bool) : R * Z :=
  if isBraking then (4, 0xff0000%Z) else (1, 0x550000%Z).

End CarView.

(** ** The camera rig: the [useFrame] callback of [CameraHandler] *)

Module CameraFollow.
Import Three.
Local Open Scope heap_scope.

(** The callback on the store holding the target and the position of the
    camera, in that order.  [lookAt] turns the camera and moves nothing. *)
Definition frame (target cameraPosition : Ref) (distance : R) : M unit :=
  let offsetDistance := distance in
  let oy := offsetDistance * 0.707 in
  let oz := offsetDistance * 0.707 in
  offset <- new_Vector3 0 oy oz ;;
  t <- get target ;;
  d <- new_Vector3 (x t) (y t) (z t) ;;
  desiredPosition <- add d offset ;;
  lerp cameraPosition desiredPosition 0.1 ;;
  ret tt.

(** The position of the camera after the frame. *)
Definition step (distance : R) (target camera : Vector3) : Vector3 :=
  cell (snd (frame 0%nat 1%nat distance (store [target; camera]))) 1%nat.

Fixpoint steps (n : nat) (distance : R) (target camera : Vector3) : Vector3 :=
  match n with
  | O => camera
  | S n' => steps n' distance target (step distance target camera)
  end.

(** Where the camera is heading: the target plus the offset. *)
Definition desired (distance : R) (target : Vector3) : Vector3 :=
  mkVector3 (x target) (y target + distance * 0.707)
            (z target + distance * 0.707).

End CameraFollow.

(** ** What the scene creates at random: crates and trees *)

Module SceneInit.
Import Three.

(** [Math.random()] is a stream of draws, read in order: a generator takes
    the stream and the number of draws made so far and gives back its
    value and the number of draws made after it. *)
Definition Gen (A : Type) : Type := (nat -> R) -> nat -> A * nat.

Fixpoint forEach {A B : Type} (f : A -> Gen B) (l : list A) : Gen (list B) :=
  fun rand n =>
    match l with
    | [] => ([], n)
    | a :: l' =>
        let (b, n1) := f a rand n in
        let (bs, n2) := forEach f l' rand n1 in
        (b :: bs, n2)
    end.

Definition colors : list string :=
  ["#facc15"; "#fbbf24"; "#f59e0b"; "#d97706"]%string.

(** [colors[Math.floor(r * colors.length)]]: [undefined] off the array. *)
Definition pick (r : R) : option string :=
  match Zfloor (r * INR (List.length colors)) with
  | Zneg _ => None
  | i => nth_error colors (Z.to_nat i)
  end.

(** A crate as the initialisation pushes it. *)
Record Created := mkCreated {
  id : R;
  position : Vector3;
  velocity : Vector3;
  rotation : Vector3;
  color : option string
}.

(** The body of the two loops of the wall. *)
Definition wallCrate (xy : Z * Z) : Gen Created :=
  fun rand n =>
    let (ix, iy) := xy in
    (mkCreated (rand n)
       (mkVector3 (IZR ix * 1.5 - 20) (0.5 + IZR iy * 1.1) 15)
       (mkVector3 0 0 0) (mkVector3 0 0 0)
       (pick (rand (S n))),
     S (S n)).

(** The body of the loop of the random piles. *)
Definition pileCrate (i : nat) : Gen Created :=
  fun rand n =>
    (mkCreated (rand n)
       (mkVector3 ((rand (1 + n)%nat - 0.5) * 60) 0.5
                  ((rand (2 + n)%nat - 0.5) * 60 + 20))
       (mkVector3 0 0 0)
       (mkVector3 0 (rand (3 + n)%nat * PI) 0)
       (pick (rand (4 + n)%nat)),
     (5 + n)%nat).

(** The pairs the two loops of the wall go through, in order. *)
Definition wallGrid : list (Z * Z) :=
  List.flat_map (fun ix => List.map (pair ix) [0; 1; 2]%Z)
    [-5; -4; -3; -2; -1; 0; 1; 2; 3; 4; 5]%Z.

(** [crates.current] after the initialisation. *)
Definition crates : Gen (list Created) :=
  fun rand n =>
    let (w, n1) := forEach wallCrate wallGrid rand n in
    let (p, n2) := forEach pileCrate (seq 0 15) rand n1 in
    (w ++ p, n2).

(** A tree of [SceneContent]. *)
Record Tree := mkTree { tree_position : R * R * R; tree_scale : R }.

(** The body of the loop of [trees]: [None] where it [continue]s. *)
Definition tree (i : nat) : Gen (option Tree) :=
  fun rand n =>
    let tx := (rand n - 0.5) * 160 in
    let tz := (rand (1 + n)%nat - 0.5) * 160 in
    if JS.ltb (Rabs tx) 15 && JS.ltb (Rabs tz) 45 then (None, (2 + n)%nat)
    else if JS.ltb (Rabs tz) 15 && JS.ltb (Rabs tx) 45 then (None, (2 + n)%nat)
    else (Some (mkTree (tx, 0, tz) (0.6 + rand (2 + n)%nat * 0.8)), (3 + n)%nat).

Definition trees : Gen (list Tree) :=
  fun rand n =>
    let (ts, n') := forEach tree (seq 0 60) rand n in
    (omap (fun t => t) ts, n').

(** The draws are what [Math.random()] gives: at least 0 and below 1. *)
Definition unit_draws (rand : nat -> R) : Prop := forall n, 0 <= rand n < 1.

End SceneInit.

(** ** The application shell: [App] and [Overlay] *)

Module App.
Import Triggers.

Definition is_HOME (a : AppSection) : bool :=
  match a with HOME => true | _ => false end.

(** [isOverlayOpen={activeSection !== AppSection.HOME}] *)
Definition isOverlayOpen (activeSection : AppSection) : bool :=
  negb (is_HOME activeSection).

(** The panels of [Overlay]. *)
Inductive Panel :=
| VeoStudio | ImageEditor | ContactSection | AboutSection | SkillsSection.

(** What [Overlay] renders inside the dialog: nothing at all for [HOME]
    ([None]), otherwise the panels whose test on [activeSection] holds. *)
Definition Overlay (activeSection : AppSection) : option (list Panel) :=
  if is_HOME activeSection then None
  else
    Some ((match activeSection with VEO_STUDIO => [VeoStudio] | _ => [] end)
          ++ (match activeSection with IMAGE_EDITOR => [ImageEditor] | _ => [] end)
          ++ (match activeSection with CONTACT => [ContactSection] | _ => [] end)
          ++ (match activeSection with ABOUT => [AboutSection] | _ => [] end)
          ++ (match activeSection with SKILLS => [SkillsSection] | _ => [] end)).

(** The state the shell and the camera keep, and the events that change
    it: a key pressed with the vehicle at [carPos], the wheel, and the
    close button of the overlay. *)
Record State := mkState { activeSection : AppSection; distance : R }.

Inductive Event :=
| Key (key : string) (carPos : Three.Vector3)
| Wheel (deltaY : R)
| Close.

Definition handle (s : State) (e : Event) : State :=
  match e with
  | Key key carPos =>
      match handleKeyDown triggers carPos key with
      | Some section => mkState section (distance s)        (* onSectionEnter *)
      | None => s
      end
  | Wheel deltaY =>
      mkState (activeSection s)
              (Camera.onWheel (isOverlayOpen (activeSection s)) deltaY (distance s))
  | Close => mkState HOME (distance s)                      (* onClose *)
  end.

Definition start : State := mkState HOME Camera.initialDistance.

End App.

(** ** The panels that call the gateway: [VeoStudio] and [ImageEditor] *)

Module Panels.
Import Gemini.
Local Open Scope string_scope.

(** [window.aistudio], when there is one: each helper, when it is there,
    with the outcome of calling it. *)
Record AiStudio := mkAiStudio {
  hasSelectedApiKey : option (result bool);
  openSelectKey : option (result unit)
}.

(** [checkApiKey] *)
Definition checkApiKey (env : Environment) (aistudio : option AiStudio)
  : result bool :=
  match aistudio with
  | Some {| hasSelectedApiKey := Some answer |} => answer
  | _ => Ok (truthy (API_KEY env))
  end.

(** What a handler does to the world outside its component. *)
Inductive Call :=
| OpenSelectKey
| Alert (message : string)
| GenerateVideo (imageFile : File) (prompt : string)
| EditImage (imageFile : File) (prompt : string).

(** [promptApiKeySelection]: what it calls, and how it ends. *)
Definition promptApiKeySelection (aistudio : option AiStudio)
  : list Call * result unit :=
  match aistudio with
  | Some {| openSelectKey := Some answer |} => ([OpenSelectKey], answer)
  | _ => ([Alert "API Key selection helper not available in this environment."],
          Ok tt)
  end.

(** How a handler ends: it returns, its promise is rejected, or it is
    still waiting for the gateway. *)
Inductive Ending := Returned | Rejected (message : string) | Waiting.

Record Run (S : Type) := mkRun { after : S; calls : list Call; ending : Ending }.
Arguments mkRun {S} after calls ending.
Arguments after {S} r.
Arguments calls {S} r.
Arguments ending {S} r.

(** [VideoGenerationState] of [types.ts]. *)
Record VideoGenerationState := mkVideoGenerationState {
  v_isGenerating : bool;
  videoUrl : option string;
  v_error : option string;
  progress : string
}.

(** [handleGenerate] of [VeoStudio], from the [file], [prompt] and [state]
    of the render it belongs to. *)
Definition veoHandleGenerate (env : Environment) (aistudio : option AiStudio)
           (fuel : nat) (file : option File) (prompt : string)
           (state : VideoGenerationState) : Run VideoGenerationState :=
  match file with
  | None => mkRun state [] Returned
  | Some f =>
      match checkApiKey env aistudio with
      | Throw e => mkRun state [] (Rejected e)
      | Ok false =>
          let (cs, r) := promptApiKeySelection aistudio in
          mkRun state cs (match r with Ok _ => Returned | Throw e => Rejected e end)
      | Ok true =>
          let s1 := mkVideoGenerationState true (videoUrl state) None
                      "Initializing Veo..." in
          let s2 := mkVideoGenerationState (v_isGenerating s1) (videoUrl s1)
                      (v_error s1)
                      "Generating video (this may take a minute)..." in
          match generateVideo env fuel f prompt None with
          | None => mkRun s2 [GenerateVideo f prompt] Waiting
          | Some (Ok url) =>
              mkRun (mkVideoGenerationState false (Some url) None EmptyString)
                    [GenerateVideo f prompt] Returned
          | Some (Throw message) =>
              mkRun (mkVideoGenerationState false None
                       (Some (if truthy (Some message) then message
                              else "Generation failed"))
                       EmptyString)
                    [GenerateVideo f prompt] Returned
          end
      end
  end.

(** [ImageEditingState] of [types.ts]. *)
Record ImageEditingState := mkImageEditingState {
  i_isGenerating : bool;
  resultImageUrl : option string;
  i_error : option string
}.

(** [handleGenerate] of [ImageEditor]. *)
Definition imageHandleGenerate (env : Environment) (file : option File)
           (prompt : string) (state : ImageEditingState)
  : Run ImageEditingState :=
  match file with
  | None => mkRun state [] Returned
  | Some f =>
      if negb (truthy (Some prompt)) then mkRun state [] Returned
      else
        match editImage env f prompt with
        | Ok url =>
            mkRun (mkImageEditingState false (Some url) None)
                  [EditImage f prompt] Returned
        | Throw message =>
            mkRun (mkImageEditingState false None (Some message))
                  [EditImage f prompt] Returned
        end
  end.

(** What the panel shows under the button: [{state.error && <p>...</p>}]. *)
Definition errorShown (error : option string) : option string :=
  if truthy error then error else None.

End Panels.

(** ** Crates over frames in which the vehicle moves *)

Module CrateRun.
Import Three.

(** A frame as the callback of [CrateSystem] finds it: the position and
    the velocity of the vehicle, read from [carApi] in that frame, and
    the frame time. *)
Record Frame := mkFrame { carPos : Vector3; carVel : Vector3; delta : R }.

(** One crate through the frames, in order. *)
Fixpoint run (frames : list Frame) (c : Crates.State) : Crates.State :=
  match frames with
  | [] => c
  | f :: rest =>
      run rest (fst (Crates.step (carPos f) (carVel f) (delta f) c))
  end.

(** No frame finds the crate within reach of the vehicle as it is in
    that frame. *)
Fixpoint alone (frames : list Frame) (c : Crates.State) : Prop :=
  match frames with
  | [] => True
  | f :: rest =>
      Crates.hits (carPos f) (carVel f) (delta f) c = false
      /\ alone rest (fst (Crates.step (carPos f) (carVel f) (delta f) c))
  end.

(** [n] frames of time [d] from frame [m] on, the vehicle being at
    [vehicle k], position and velocity, in frame [k]. *)
Definition drive (vehicle : nat -> Vector3 * Vector3) (d : R) (m n : nat)
  : list Frame :=
  List.map (fun k => mkFrame (fst (vehicle k)) (snd (vehicle k)) d) (seq m n).

End CrateRun.

(** * Properties *)

(** ** Camera zoom *)

Section CameraZoom.
Import Camera.

Lemma clamp_range value lo hi : lo <= hi -> lo <= Three.clamp value lo hi <= hi.
Proof.
  intros Hle. unfold Three.clamp, Rmax, Rmin.
  destruct (Rle_dec hi value); destruct (Rle_dec lo _); lra.
Qed.

Lemma clamp_below value lo hi : lo <= hi -> value < lo -> Three.clamp value lo hi = lo.
Proof.
  intros Hle Hlt. unfold Three.clamp, Rmax, Rmin.
  destruct (Rle_dec hi value); destruct (Rle_dec lo _); lra.
Qed.

Lemma clamp_above value lo hi : lo <= hi -> hi < value -> Three.clamp value lo hi = hi.
Proof.
  intros Hle Hlt. unfold Three.clamp, Rmax, Rmin.
  destruct (Rle_dec hi value); destruct (Rle_dec lo _); lra.
Qed.

Lemma clamp_inside value lo hi : lo <= value <= hi -> Three.clamp value lo hi = value.
Proof.
  intros Hin. unfold Three.clamp, Rmax, Rmin.
  destruct (Rle_dec hi value); destruct (Rle_dec lo _); lra.
Qed.

Lemma onWheel_range o deltaY distance :
  5 <= distance <= 40 -> 5 <= onWheel o deltaY distance <= 40.
Proof.
  intros Hd. unfold onWheel. destruct o; [exact Hd|].
  apply clamp_range; lra.
Qed.

Lemma wheels_range events : forall distance,
  5 <= distance <= 40 -> 5 <= wheels events distance <= 40.
Proof.
  unfold wheels.
  induction events as [|e events IH]; intros distance Hd; simpl; [exact Hd|].
  apply IH, onWheel_range, Hd.
Qed.

(** C8.  A wheel event leaves the zoom distance unchanged while an
    overlay is open; otherwise the new distance is
    [clamp(old + 0.02 * deltaY, 5, 40)]: exactly 5 when the sum is below
    5, exactly 40 when it is above 40, the sum itself in between.  The
    distance, which starts at 20, is within [5, 40] after any sequence of
    wheel events. *)
Theorem camera_zoom_clamped (deltaY distance : R) (events : list (bool * R)) :
  onWheel true deltaY distance = distance
  /\ onWheel false deltaY distance = Three.clamp (distance + deltaY * 0.02) 5 40
  /\ (distance + deltaY * 0.02 < 5 -> onWheel false deltaY distance = 5)
  /\ (40 < distance + deltaY * 0.02 -> onWheel false deltaY distance = 40)
  /\ (5 <= distance + deltaY * 0.02 <= 40 ->
      onWheel false deltaY distance = distance + deltaY * 0.02)
  /\ 5 <= onWheel false deltaY distance <= 40
  /\ 5 <= wheels events initialDistance <= 40.
Proof.
  repeat split; try reflexivity.
  - intros H. apply clamp_below; lra.
  - intros H. apply clamp_above; lra.
  - intros H. apply clamp_inside; lra.
  - apply (clamp_range (distance + deltaY * 0.02) 5 40); lra.
  - apply (clamp_range (distance + deltaY * 0.02) 5 40); lra.
  - apply wheels_range; unfold initialDistance; lra.
  - apply wheels_range; unfold initialDistance; lra.
Qed.

(** Scrolling out by 2000 from the initial distance stops at 40, and
    scrolling in by 2000 stops at 5. *)
Lemma camera_zoom_clamped_witness :
  onWheel false 2000 20 = 40 /\ onWheel false (-2000) 20 = 5.
Proof.
  split.
  - apply (camera_zoom_clamped 2000 20 []); lra.
  - apply (camera_zoom_clamped (-2000) 20 []); lra.
Defined.

End CameraZoom.

(** ** The AI gateway *)

Section Gateway.
Import Gemini.
Local Open Scope string_scope.

Lemma extractImage_first pre part post i :
  Forall (fun q => inlineData q = None) pre ->
  inlineData part = Some i ->
  extractImage (pre ++ part :: post)%list
  = Ok ("data:image/png;base64," ++ template (data i)).
Proof.
  intros Hpre Hpart. induction Hpre as [|q pre Hq _ IH]; simpl.
  - now rewrite Hpart.
  - now rewrite Hq.
Qed.

Lemma extractImage_none ps :
  Forall (fun q => inlineData q = None) ps ->
  extractImage ps = Throw "No image generated in response".
Proof.
  induction 1 as [|q ps Hq _ IH]; simpl; [reflexivity|]. now rewrite Hq.
Qed.

(** C10.  When the file is read and [generateContent] answers, the handle
    returned by [editImage] is the PNG data URL of the first part, among
    the parts of the first candidate, that carries inline data: the
    parts before it (text parts) are skipped, and the mime type reported
    with the data plays no role.  When no part carries inline data the
    call throws "No image generated in response". *)
Theorem editImage_first_inline_part
  (env : Environment) (imageFile : File) (prompt base64Image : string)
  (response : GenerateContentResponse)
  (Hread : readAsDataURL env imageFile = Ok base64Image)
  (Hanswer :
     generateContent env
       (contentRequest (nth_error (split ","%char base64Image) 1)
          (file_type imageFile) prompt) = Ok response) :
  (forall first others ct pre part post b64 mime,
      candidates response = Some (first :: others) ->
      content first = Some ct ->
      parts ct = Some (pre ++ part :: post)%list ->
      Forall (fun q => inlineData q = None) pre ->
      inlineData part = Some (mkInlineData b64 mime) ->
      editImage env imageFile prompt
      = Ok ("data:image/png;base64," ++ template b64))
  /\ (Forall (fun q => inlineData q = None) (responseParts response) ->
      editImage env imageFile prompt = Throw "No image generated in response").
Proof.
  unfold editImage, fileToBase64. rewrite Hread. cbn [rbind].
  rewrite Hanswer. cbn [rbind]. split.
  - intros first others ct pre part post b64 mime Hc Hct Hps Hpre Hpart.
    unfold responseParts. rewrite Hc, Hct, Hps. simpl default.
    now rewrite (extractImage_first pre part post _ Hpre Hpart).
  - apply extractImage_none.
Qed.

(** *** [generateVideo] *)

Lemma pollLoop_ends env k : forall polled operation final fuel,
  opAfter env polled operation k = Ok final ->
  done final = true ->
  (forall j o, (j < k)%nat -> opAfter env polled operation j = Ok o ->
               done o = false) ->
  (k <= fuel)%nat ->
  pollLoop env fuel polled operation = Some (Ok final).
Proof.
  induction k as [|k IH]; intros polled operation final fuel Hk Hdone Hfirst Hfuel.
  - simpl in Hk. injection Hk as ->. destruct fuel; simpl; now rewrite Hdone.
  - destruct fuel as [|fuel]; [lia|].
    assert (Hnot : done operation = false)
      by (apply (Hfirst 0%nat); [lia | reflexivity]).
    simpl. rewrite Hnot. simpl in Hk.
    destruct (getVideosOperation env polled operation) as [operation'|e] eqn:Hget;
      [|discriminate].
    cbn [rbind] in Hk. apply IH; [exact Hk | exact Hdone | | lia].
    intros j o Hj Ho. apply (Hfirst (S j)); [lia|].
    simpl. rewrite Hget. exact Ho.
Qed.

Lemma pollLoop_throws env k : forall polled operation e fuel,
  opAfter env polled operation k = Throw e ->
  (forall j o, (j < k)%nat -> opAfter env polled operation j = Ok o ->
               done o = false) ->
  (k <= fuel)%nat ->
  pollLoop env fuel polled operation = Some (Throw e).
Proof.
  induction k as [|k IH]; intros polled operation e fuel Hk Hfirst Hfuel.
  - discriminate.
  - destruct fuel as [|fuel]; [lia|].
    assert (Hnot : done operation = false)
      by (apply (Hfirst 0%nat); [lia | reflexivity]).
    simpl. rewrite Hnot. simpl in Hk.
    destruct (getVideosOperation env polled operation) as [operation'|e'] eqn:Hget.
    + cbn [rbind] in Hk. apply IH; [exact Hk | | lia].
      intros j o Hj Ho. apply (Hfirst (S j)); [lia|].
      simpl. rewrite Hget. exact Ho.
    + cbn [rbind] in Hk. now injection Hk as ->.
Qed.

Lemma download_outcome env final :
  (truthy (videoUriOf final) = false ->
   download env final = Throw "No video URI returned")
  /\ (forall e, truthy (videoUriOf final) = true ->
        fetch env (downloadUrl env final) = Throw e ->
        download env final = Throw e)
  /\ (forall r, truthy (videoUriOf final) = true ->
        fetch env (downloadUrl env final) = Ok r -> ok r = false ->
        download env final = Throw "Failed to download video")
  /\ (forall r e, truthy (videoUriOf final) = true ->
        fetch env (downloadUrl env final) = Ok r -> ok r = true ->
        blob r = Throw e ->
        download env final = Throw e)
  /\ (forall r b, truthy (videoUriOf final) = true ->
        fetch env (downloadUrl env final) = Ok r -> ok r = true ->
        blob r = Ok b ->
        download env final = Ok (createObjectURL env b)).
Proof.
  unfold download, downloadUrl.
  repeat split; intros.
  - now rewrite H.
  - rewrite H. cbn [negb]. now rewrite H0.
  - rewrite H. cbn [negb]. rewrite H0. cbn [rbind]. now rewrite H1.
  - rewrite H. cbn [negb]. rewrite H0. cbn [rbind]. rewrite H1.
    cbn [negb]. now rewrite H2.
  - rewrite H. cbn [negb]. rewrite H0. cbn [rbind]. rewrite H1.
    cbn [negb]. now rewrite H2.
Qed.

(** C7, as the code has it.  [generateVideo] keeps asking for the status
    of the operation until an answer is done.  A failure of an awaited
    call (reading the file, the submission, a status request, the
    fetch, reading the body) is thrown to the caller as it is.  With the
    final operation in hand the function throws "No video URI returned"
    when it carries no video uri, fetches the uri with the key
    otherwise, throws "Failed to download video" when the response is
    not ok, and returns the object URL of the body when the response is
    ok and its body can be read.  So when every awaited call answers,
    the function throws exactly when the final operation carries no
    video uri or the fetched response is not ok. *)
Theorem generateVideo_outcome
  (env : Environment) (fuel : nat) (imageFile : File) (prompt : string)
  (aspectRatio : option AspectRatio) :
  let run := generateVideo env fuel imageFile prompt aspectRatio in
  (forall e, readAsDataURL env imageFile = Throw e -> run = Some (Throw e))
  /\ (forall base64Image,
        readAsDataURL env imageFile = Ok base64Image ->
        let request :=
          videoRequest (nth_error (split ","%char base64Image) 1)
            (file_type imageFile) prompt (default Landscape16x9 aspectRatio) in
        (forall e, generateVideos env request = Throw e -> run = Some (Throw e))
        /\ (forall operation k,
              generateVideos env request = Ok operation ->
              (k <= fuel)%nat ->
              (forall j o, (j < k)%nat ->
                           opAfter env 0 operation j = Ok o -> done o = false) ->
              (forall e, opAfter env 0 operation k = Throw e ->
                         run = Some (Throw e))
              /\ (forall final,
                    opAfter env 0 operation k = Ok final ->
                    done final = true ->
                    let url := template (videoUriOf final) ++ "&key="
                               ++ template (API_KEY env) in
                    run = Some (download env final)
                    /\ (truthy (videoUriOf final) = false ->
                        run = Some (Throw "No video URI returned"))
                    /\ (truthy (videoUriOf final) = true ->
                        (forall e, fetch env url = Throw e ->
                                   run = Some (Throw e))
                        /\ (forall r,
                              fetch env url = Ok r ->
                              (ok r = false ->
                               run = Some (Throw "Failed to download video"))
                              /\ (forall e, ok r = true -> blob r = Throw e ->
                                            run = Some (Throw e))
                              /\ (forall b, ok r = true -> blob r = Ok b ->
                                            run = Some (Ok (createObjectURL env b)))))
                    /\ (forall r b,
                          fetch env url = Ok r ->
                          blob r = Ok b ->
                          (is_Throw (download env final) = true <->
                           truthy (videoUriOf final) = false \/ ok r = false)
                          /\ (is_Throw (download env final) = false ->
                              download env final = Ok (createObjectURL env b)))))).
Proof.
  intros run. subst run. unfold generateVideo, fileToBase64. split.
  - intros e He. now rewrite He.
  - intros base64Image Hread. cbv zeta. rewrite Hread. split.
    + intros e He. now rewrite He.
    + intros operation k Hsubmit Hfuel Hfirst. rewrite Hsubmit. split.
      * intros e Hk. now rewrite (pollLoop_throws env k _ _ _ _ Hk Hfirst Hfuel).
      * intros final Hk Hdone.
        rewrite (pollLoop_ends env k _ _ _ _ Hk Hdone Hfirst Hfuel).
        destruct (download_outcome env final)
          as (Hno & Hfetch & Hbad & Hbody & Hgood).
        unfold downloadUrl in Hfetch, Hbad, Hbody, Hgood.
        split; [reflexivity|]. split; [|split].
        -- intros Huri. now rewrite (Hno Huri).
        -- intros Huri. split.
           ++ intros e He. now rewrite (Hfetch e Huri He).
           ++ intros r Hr. split; [|split].
              ** intros Hok. now rewrite (Hbad r Huri Hr Hok).
              ** intros e Hok Hb. now rewrite (Hbody r e Huri Hr Hok Hb).
              ** intros b Hok Hb. now rewrite (Hgood r b Huri Hr Hok Hb).
        -- intros r b Hr Hblob.
           destruct (truthy (videoUriOf final)) eqn:Huri.
           ++ destruct (ok r) eqn:Hok.
              ** rewrite (Hgood r b eq_refl Hr Hok Hblob). cbn [is_Throw].
                 split; [split; [discriminate|intros [?|?]; discriminate]
                        |reflexivity].
              ** rewrite (Hbad r eq_refl Hr Hok). cbn [is_Throw].
                 split; [split; [intros _; now right|reflexivity]|discriminate].
           ++ rewrite (Hno eq_refl). cbn [is_Throw].
              split; [split; [intros _; now left|reflexivity]|discriminate].
Qed.

(** In [envGood] the third status request is done and the download
    works: the object URL is returned. *)
Lemma generateVideo_outcome_witness :
  generateVideo Samples.envGood 5 Samples.photo "a slow pan" None = Some (Ok "blob:bytes").
Proof.
  destruct (generateVideo_outcome Samples.envGood 5 Samples.photo "a slow pan" None)
    as [_ H].
  destruct (H "data:image/jpeg;base64,AAAA" eq_refl) as [_ H1].
  assert (Hfirst : forall j o, (j < 3)%nat ->
            opAfter Samples.envGood 0 Samples.pending j = Ok o -> done o = false).
  { intros j o Hj Ho. destruct j as [|[|[|j]]]; [| | |lia];
      simpl in Ho; injection Ho as <-; reflexivity. }
  destruct (H1 Samples.pending 3%nat eq_refl ltac:(lia) Hfirst) as [_ H2].
  destruct (H2 (Samples.finished (Some "https://videos/1?alt=media"))
              eq_refl eq_refl) as (_ & _ & Hdown & _).
  destruct (Hdown eq_refl) as [_ Hfetched].
  destruct (Hfetched (mkFetchResponse true (Ok "bytes")) eq_refl)
    as (_ & _ & Hok).
  exact (Hok "bytes" eq_refl eq_refl).
Defined.

(** C7 fails as stated.  In [envBodyFails] the final operation carries a
    video uri and the fetch answers with [ok], yet the call throws,
    because reading the body fails; in [envRefused] the call throws
    before there is any operation to poll. *)
Lemma generateVideo_throws_for_other_reasons :
  let final := Samples.finished (Some "https://videos/1?alt=media") in
  generateVideo Samples.envBodyFails 5 Samples.photo "a slow pan" None
  = Some (Throw "network error")
  /\ pollLoop Samples.envBodyFails 5 0 Samples.pending = Some (Ok final)
  /\ truthy (videoUriOf final) = true
  /\ fetch Samples.envBodyFails (downloadUrl Samples.envBodyFails final)
     = Ok (mkFetchResponse true (Throw "network error"))
  /\ generateVideo Samples.envRefused 5 Samples.photo "a slow pan" None
     = Some (Throw "API key not valid").
Proof. repeat split. Qed.

(** The sample answer of the model: a sentence, then a JPEG.  The handle
    is a PNG data URL of the JPEG's data. *)
Lemma editImage_first_inline_part_witness :
  editImage Samples.envGood Samples.photo "remove the background"
  = Ok "data:image/png;base64,QUJD".
Proof.
  refine (proj1 (editImage_first_inline_part Samples.envGood Samples.photo
                   "remove the background" "data:image/jpeg;base64,AAAA"
                   Samples.editedResponse eq_refl eq_refl)
            _ [] _ [mkPart None (Some "Here is your image.")] _ []
            (Some "QUJD") (Some "image/jpeg")
            eq_refl eq_refl eq_refl _ eq_refl).
  repeat constructor.
Defined.

End Gateway.

(** ** Trigger zones *)

Section Zones.
Import Three Triggers.

Lemma sq_ge0 (a : R) : 0 <= a * a.
Proof. nra. Qed.

Lemma distSq_nonneg u v : 0 <= distSq u v.
Proof.
  unfold distSq. cbv zeta.
  pose proof (sq_ge0 (x u - x v)). pose proof (sq_ge0 (y u - y v)).
  pose proof (sq_ge0 (z u - z v)). lra.
Qed.

Lemma sqrt_lt_sq s r : 0 <= s -> 0 <= r -> (sqrt s < r <-> s < r * r).
Proof.
  intros Hs Hr. pose proof (sqrt_pos s) as Hp.
  pose proof (sqrt_sqrt s Hs) as Hq. split; intros H.
  - nra.
  - destruct (Rlt_dec (sqrt s) r) as [Hlt|Hge]; [exact Hlt|]. nra.
Qed.

Lemma dist_lt u v r : 0 <= r -> (dist u v < r <-> distSq u v < r * r).
Proof. intros Hr. apply sqrt_lt_sq; [apply distSq_nonneg | exact Hr]. Qed.

Lemma distSq_sym u v : distSq u v = distSq v u.
Proof. unfold distSq. cbv zeta. ring. Qed.

Lemma active_true px py pz carPos :
  active (px, py, pz) carPos = true
  <-> distSq carPos (mkVector3 px py pz) < 36.
Proof.
  unfold active, activationRadius. rewrite JS.ltb_true, dist_lt by lra.
  split; intros; lra.
Qed.

Lemma inRange_true carPos t :
  inRange carPos t = true <-> distSq (pos t) carPos < 36.
Proof.
  unfold inRange, activationRadius. rewrite JS.ltb_true, dist_lt by lra.
  split; intros; lra.
Qed.

(** C4, as the code has it.  The flag handed to [setActive] is true
    exactly when the distance in space between the vehicle and the zone
    centre, height difference included, is below 6.  With the vehicle at
    its ride height 0.5 over a zone at height 0 this is: the planar
    distance squared is below 36 - 0.25.  The flag is true with the
    vehicle over the centre, and false whenever the planar distance is 6
    or more. *)
Theorem trigger_active_iff (px py pz : R) (carPos : Vector3) :
  let zone := mkVector3 px py pz in
  (active (px, py, pz) carPos = true <-> dist carPos zone < 6)
  /\ (y carPos = 0.5 -> py = 0 ->
      (active (px, py, pz) carPos = true
       <-> (x carPos - px) * (x carPos - px) + (z carPos - pz) * (z carPos - pz)
           < 36 - 0.25))
  /\ (x carPos = px -> z carPos = pz -> Rabs (y carPos - py) < 6 ->
      active (px, py, pz) carPos = true)
  /\ (6 <= planarDist carPos zone -> active (px, py, pz) carPos = false).
Proof.
  intros zone. split; [|split; [|split]].
  - unfold active, activationRadius. now rewrite JS.ltb_true.
  - intros Hy Hpy. rewrite active_true. unfold distSq. cbn.
    rewrite Hy, Hpy. split; intros; lra.
  - intros Hx Hz Hy. rewrite active_true. unfold distSq. cbn.
    rewrite Hx, Hz. apply Rabs_def2 in Hy.
    assert (Hsq : (y carPos - py) * (y carPos - py) < 36) by nra.
    lra.
  - intros Hfar. destruct (active (px, py, pz) carPos) eqn:Hact; [|reflexivity].
    exfalso. apply active_true in Hact. unfold distSq in Hact. cbn in Hact.
    unfold planarDist, zone in Hfar. cbn in Hfar.
    pose proof (sq_ge0 (x carPos - px)). pose proof (sq_ge0 (y carPos - py)).
    pose proof (sq_ge0 (z carPos - pz)).
    assert (Hlt : sqrt ((x carPos - px) * (x carPos - px)
                        + (z carPos - pz) * (z carPos - pz)) < 6).
    { apply sqrt_lt_sq; lra. }
    lra.
Qed.

(** The vehicle at ride height over the centre of the About zone. *)
Lemma trigger_active_iff_witness :
  active (0, 0, -25) (mkVector3 0 0.5 (-25)) = true.
Proof.
  apply (trigger_active_iff 0 0 (-25) (mkVector3 0 0.5 (-25)));
    cbn; try reflexivity.
  rewrite Rabs_right; lra.
Defined.

(** C4 fails as stated.  The vehicle at ride height, 5.99 to the side of
    the About zone: the planar distance is below 6 and the flag is
    false. *)
Lemma trigger_inactive_within_planar_radius :
  let carPos := mkVector3 5.99 0.5 (-25) in
  let zone := mkVector3 0 0 (-25) in
  planarDist carPos zone < 6 /\ active (toArray zone) carPos = false.
Proof.
  cbv zeta. split.
  - unfold planarDist. cbn. apply sqrt_lt_sq; nra.
  - unfold toArray. cbn [x y z].
    destruct (active (0, 0, -25) (mkVector3 5.99 0.5 (-25))) eqn:Hact;
      [|reflexivity].
    apply active_true in Hact. unfold distSq in Hact. cbn in Hact. lra.
Qed.

(** *** The Enter key *)

Lemma find_first {A} (f : A -> bool) (l : list A) (a : A) :
  List.find f l = Some a
  <-> exists pre post, l = pre ++ a :: post
                       /\ Forall (fun b => f b = false) pre /\ f a = true.
Proof.
  induction l as [|b l IH]; simpl.
  - split; [discriminate|]. intros (pre & post & Hl & _).
    destruct pre; discriminate.
  - destruct (f b) eqn:Hb.
    + split.
      * intros [= ->]. exists [], l. auto.
      * intros (pre & post & Hl & Hpre & Ha).
        destruct pre as [|c pre]; simpl in Hl; injection Hl as -> ->.
        -- reflexivity.
        -- inversion Hpre; congruence.
    + rewrite IH. split.
      * intros (pre & post & -> & Hpre & Ha). exists (b :: pre), post. auto.
      * intros (pre & post & Hl & Hpre & Ha).
        destruct pre as [|c pre]; simpl in Hl; injection Hl as -> ->.
        -- congruence.
        -- inversion Hpre; subst. eauto.
Qed.

Lemma find_nothing {A} (f : A -> bool) (l : list A) :
  List.find f l = None <-> Forall (fun b => f b = false) l.
Proof.
  induction l as [|b l IH]; simpl.
  - split; auto.
  - destruct (f b) eqn:Hb.
    + split; [discriminate|]. inversion 1; congruence.
    + rewrite IH. split; [auto|]. now inversion 1.
Qed.

Lemma inRange_iff carPos t :
  inRange carPos t = true <-> dist (pos t) carPos < activationRadius.
Proof. unfold inRange. apply JS.ltb_true. Qed.

Lemma inRange_not carPos t :
  inRange carPos t = false <-> ~ dist (pos t) carPos < activationRadius.
Proof.
  rewrite <- inRange_iff. destruct (inRange carPos t); split; congruence.
Qed.

(** No point of space is within the radius of two zones of the scene. *)
Lemma triggers_apart carPos t u :
  In t triggers -> In u triggers ->
  inRange carPos t = true -> inRange carPos u = true -> t = u.
Proof.
  intros Ht Hu Hrt Hru.
  apply inRange_true in Hrt. apply inRange_true in Hru.
  pose proof (sq_ge0 (x (pos t) + x (pos u) - 2 * x carPos)) as Hx.
  pose proof (sq_ge0 (z (pos t) + z (pos u) - 2 * z carPos)) as Hz.
  pose proof (sq_ge0 (y (pos t) - y carPos)) as Hy1.
  pose proof (sq_ge0 (y (pos u) - y carPos)) as Hy2.
  unfold distSq in Hrt, Hru.
  unfold triggers in Ht, Hu. simpl in Ht, Hu.
  repeat (destruct Ht as [<-|Ht]; [|]); try contradiction;
    repeat (destruct Hu as [<-|Hu]; [|]); try contradiction;
    try reflexivity; exfalso; cbn in *; lra.
Qed.

(** C3, as the code has it.  On Enter the section opened is that of the
    first zone, in the order of the array, within distance 6 of the
    vehicle; no section is opened when no zone is within that distance,
    nor on any other key.  For the five zones of the scene the zone
    chosen is also the nearest of the zones in range, since no position
    is in range of two of them. *)
Theorem enter_opens_first_zone_in_range (ts : list Trigger) (carPos : Vector3) :
  (forall s,
      handleKeyDown ts carPos "Enter" = Some s
      <-> exists pre t post,
            ts = pre ++ t :: post
            /\ Forall (fun u => ~ dist (pos u) carPos < activationRadius) pre
            /\ dist (pos t) carPos < activationRadius
            /\ section t = s)
  /\ (handleKeyDown ts carPos "Enter" = None
      <-> Forall (fun u => ~ dist (pos u) carPos < activationRadius) ts)
  /\ (forall key, key <> "Enter"%string -> handleKeyDown ts carPos key = None)
  /\ (forall s,
        handleKeyDown triggers carPos "Enter" = Some s ->
        exists t, In t triggers /\ section t = s
                  /\ dist (pos t) carPos < activationRadius
                  /\ forall u, In u triggers ->
                               dist (pos u) carPos < activationRadius ->
                               dist (pos t) carPos <= dist (pos u) carPos).
Proof.
  assert (Hfa : forall l,
             Forall (fun u => inRange carPos u = false) l
             <-> Forall (fun u => ~ dist (pos u) carPos < activationRadius) l).
  { intros l. split; apply List.Forall_impl; intros u; apply inRange_not. }
  unfold handleKeyDown. split; [|split; [|split]].
  - intros s. simpl String.eqb. cbv iota. split.
    + destruct (find (inRange carPos) ts) as [closest|] eqn:Hfind; [|discriminate].
      intros [= <-]. apply find_first in Hfind.
      destruct Hfind as (pre & post & -> & Hpre & Hin).
      exists pre, closest, post. rewrite <- Hfa, <- inRange_iff. auto.
    + intros (pre & t & post & -> & Hpre & Hin & <-).
      rewrite <- Hfa in Hpre. rewrite <- inRange_iff in Hin.
      assert (Hfind : find (inRange carPos) (pre ++ t :: post) = Some t)
        by (apply find_first; eauto).
      now rewrite Hfind.
  - simpl String.eqb. cbv iota. rewrite <- Hfa, <- find_nothing.
    destruct (find (inRange carPos) ts); split; congruence.
  - intros key Hkey. destruct (String.eqb_spec key "Enter"); [contradiction|].
    reflexivity.
  - intros s. simpl String.eqb. cbv iota.
    destruct (find (inRange carPos) triggers) as [closest|] eqn:Hfind;
      [|discriminate].
    intros [= <-]. apply find_some in Hfind. destruct Hfind as [Hin Hr].
    exists closest. repeat split; [exact Hin | now apply inRange_iff |].
    intros u Hu Hru. apply inRange_iff in Hru.
    rewrite (triggers_apart carPos closest u Hin Hu Hr Hru). lra.
Qed.

(** The sample zones, seen from the origin: the zone opened is the one at
    distance 5, although the one at distance 1 is in range too.  C3 fails
    as stated. *)
Lemma enter_opens_farther_zone :
  let carPos := mkVector3 0 0 0 in
  exists far near,
    Samples.twoZones = [far; near]
    /\ dist (pos far) carPos = 5
    /\ dist (pos near) carPos = 1
    /\ handleKeyDown Samples.twoZones carPos "Enter" = Some (section far)
    /\ section far <> section near.
Proof.
  cbv zeta. eexists _, _. split; [reflexivity|].
  assert (H5 : dist (mkVector3 5 0 0) (mkVector3 0 0 0) = 5).
  { unfold dist, distSq. cbn.
    replace ((5 - 0) * (5 - 0) + (0 - 0) * (0 - 0) + (0 - 0) * (0 - 0))
      with (5 * 5) by ring.
    apply sqrt_square. lra. }
  assert (H1 : dist (mkVector3 1 0 0) (mkVector3 0 0 0) = 1).
  { unfold dist, distSq. cbn.
    replace ((1 - 0) * (1 - 0) + (0 - 0) * (0 - 0) + (0 - 0) * (0 - 0))
      with (1 * 1) by ring.
    apply sqrt_square. lra. }
  cbn [pos section]. repeat split; [exact H5 | exact H1 | | discriminate].
  unfold handleKeyDown, Samples.twoZones. simpl String.eqb. cbn [find].
  unfold inRange at 1. cbn [pos]. rewrite H5.
  replace (JS.ltb 5 activationRadius) with true; [reflexivity|].
  symmetry. apply JS.ltb_true. unfold activationRadius. lra.
Qed.

(** In the scene, at ride height over the About zone, Enter opens
    About. *)
Lemma enter_opens_first_zone_in_range_witness :
  handleKeyDown triggers (mkVector3 0 0.5 (-25)) "Enter" = Some ABOUT.
Proof.
  apply (proj1 (enter_opens_first_zone_in_range triggers
                  (mkVector3 0 0.5 (-25)))).
  eexists [], _, _. split; [reflexivity|]. split; [constructor|].
  split; [|reflexivity].
  apply inRange_iff, inRange_true. unfold distSq. cbn. lra.
Defined.

End Zones.

(** ** Running a callback *)

(** The store of a callback has a fixed layout, so that running the body
    is a computation: unfold the methods of three.js and the wrappers,
    compare references, and leave the arithmetic alone. *)
Ltac run_store :=
  cbv beta iota zeta delta
    [Three.bind Three.ret Three.get Three.put Three.new_Vector3
     Three.set_x Three.set_y Three.set_z Three.set Three.clone Three.copy
     Three.add Three.subVectors Three.multiplyScalar Three.divideScalar
     Three.length Three.normalize Three.distanceTo Three.upd Three.store
     Three.next Three.cell
     Nat.eqb nth List.length fst snd default
     Car.api Car.position Car.velocity Car.radius Car.storeOf Car.step
     Crates.slot Crates.meshSlot Crates.position Crates.velocity
     Crates.rotation Crates.mesh_position Crates.mesh_rotation
     Crates.storeOf Crates.step];
  cbn [Three.x Three.y Three.z Car.pos Car.vel Car.ctl Car.isBraking
       Car.rotation Car.keys Crates.pos Crates.vel Crates.rot Crates.mesh
       Crates.shown_position Crates.shown_rotation].

Ltac run_store_in H :=
  cbv beta iota zeta delta
    [Three.bind Three.ret Three.get Three.put Three.new_Vector3
     Three.set_x Three.set_y Three.set_z Three.set Three.clone Three.copy
     Three.add Three.subVectors Three.multiplyScalar Three.divideScalar
     Three.length Three.normalize Three.distanceTo Three.upd Three.store
     Three.next Three.cell
     Nat.eqb nth List.length fst snd default
     Car.api Car.position Car.velocity Car.radius Car.storeOf Car.step
     Crates.slot Crates.meshSlot Crates.position Crates.velocity
     Crates.rotation Crates.mesh_position Crates.mesh_rotation
     Crates.storeOf Crates.step] in H;
  cbn [Three.x Three.y Three.z Car.pos Car.vel Car.ctl Car.isBraking
       Car.rotation Car.keys Crates.pos Crates.vel Crates.rot Crates.mesh
       Crates.shown_position Crates.shown_rotation] in H.

(** Case analysis on the comparison a conditional of the body waits for. *)
Ltac split_if_gtb H :=
  match goal with
  | |- context [if JS.gtb ?a ?b then _ else _] => destruct (JS.gtb a b) eqn:H
  end.

(** The crate callback, up to its first conditional. *)
Ltac crate_run :=
  unfold Crates.step, Crates.crateStep, Crates.gravity, Crates.move,
    Crates.collision;
  cbn [Crates.mesh]; rewrite ?lookup_singleton_eq, ?lookup_empty; run_store.

(** ** The vehicle *)

Section Vehicle.
Import Three Car.

(** C9.  In a frame with the reset key held, whatever the other keys,
    the frame time and the state before: the velocity becomes zero, the
    position becomes (0, 0.5, 0), the heading becomes zero, and nothing
    else happens: the braking flag and the keys are as before, the
    engine sound is not updated and no vector is created, as the later
    steps of the frame would do. *)
Theorem reset_frame (delta : R) (s : State)
  (Hreset : held (keys (ctl s)) "KeyR" = true) :
  step delta s
  = (mkState (mkVector3 0 0.5 0) (mkVector3 0 0 0)
       (mkController (isBraking (ctl s)) 0 (keys (ctl s))),
     None)
  /\ next (snd (frame api delta (ctl s) (storeOf s))) = next (storeOf s).
Proof.
  unfold step, frame. rewrite Hreset. run_store. split; reflexivity.
Qed.

(** What a frame without reset does to the two vectors. *)
Lemma frame_effect (delta : R) (s : State)
  (Hdrive : held (keys (ctl s)) "KeyR" = false) :
  let c := ctl s in
  let t := throttleOf (keys c) in
  let a := accAmountOf (keys c) in
  let vx := if JS.neqb t 0 then x (vel s) - sin (rotation c) * t * a * delta
            else x (vel s) in
  let vz := if JS.neqb t 0 then z (vel s) - cos (rotation c) * t * a * delta
            else z (vel s) in
  let npx := x (pos s) + vx * delta in
  let npz := z (pos s) + vz * delta in
  fst (step delta s)
  = mkState
      (mkVector3 (if JS.gtb (Rabs npx) bound then JS.sign npx * bound else npx)
                 (y (pos s) + y (vel s) * delta)
                 (if JS.gtb (Rabs npz) bound then JS.sign npz * bound else npz))
      (mkVector3 ((if JS.gtb (Rabs npx) bound then vx * -0.5 else vx) * friction)
                 (y (vel s) * friction)
                 ((if JS.gtb (Rabs npz) bound then vz * -0.5 else vz) * friction))
      (mkController (JS.ltb t 0) (steer (keys c) (3.0 * delta) (rotation c))
                    (keys c)).
Proof.
  destruct s as [p v c]. cbn [pos vel ctl] in *.
  unfold step, frame, applyThrottle, integrate, boundsCheck.
  cbn [ctl]. rewrite Hdrive. cbv zeta.
  destruct (JS.neqb (throttleOf (keys c)) 0); run_store.
  all: split_if_gtb Hbx; run_store.
  all: split_if_gtb Hbz; run_store.
  all: reflexivity.
Qed.

(** The vehicle rides at the height it starts at, 0.5, with no vertical
    velocity: every frame keeps both. *)
Lemma ride_height (delta : R) (s : State) :
  y (pos s) = 0.5 -> y (vel s) = 0 ->
  y (pos (fst (step delta s))) = 0.5 /\ y (vel (fst (step delta s))) = 0.
Proof.
  intros Hp Hv. destruct (held (keys (ctl s)) "KeyR") eqn:Hreset.
  - unfold step, frame. rewrite Hreset. run_store. split; reflexivity.
  - rewrite (frame_effect delta s Hreset). cbn [pos vel y].
    rewrite Hp, Hv. unfold friction. split; lra.
Qed.

Lemma sign_times_bound a :
  bound < Rabs a -> Rabs (JS.sign a * bound) = bound.
Proof.
  unfold bound, JS.sign, JS.ltb. intros Ha.
  destruct (Rlt_dec 0 a) as [Hpos|Hneg].
  - rewrite Rabs_right; lra.
  - destruct (Rlt_dec a 0) as [Hlt|Hge].
    + rewrite Rabs_left; lra.
    + assert (a = 0) as -> by lra. rewrite Rabs_R0 in Ha. lra.
Qed.

Lemma gtb_true a b : JS.gtb a b = true <-> b < a.
Proof. apply JS.ltb_true. Qed.

Lemma gtb_false a b : JS.gtb a b = false <-> a <= b.
Proof. apply JS.ltb_false. Qed.

(** C2.  After the frame the position is within the bound on both planar
    axes, whatever the state before.  In a frame without reset, the
    position integrated from the velocity is clamped to the bound on
    each axis where it exceeds it, and there the bounce flips the sign
    of the velocity component and halves it; the friction of the same
    frame then scales it by 0.97.  Where the bound is not exceeded,
    position and velocity component pass the bounds check unchanged. *)
Theorem vehicle_stays_in_bounds (delta : R) (s : State) :
  let s' := fst (step delta s) in
  (Rabs (x (pos s')) <= bound /\ Rabs (z (pos s')) <= bound)
  /\ (held (keys (ctl s)) "KeyR" = false ->
      let c := ctl s in
      let h1 := snd (applyThrottle api (rotation c) (throttleOf (keys c))
                       (accAmountOf (keys c)) delta (storeOf s)) in
      let newPos := fst (integrate api delta h1) in
      let h2 := snd (integrate api delta h1) in
      let h3 := snd (boundsCheck api newPos h2) in
      let np := cell h2 newPos in
      let v := cell h2 (velocity api) in
      np = mkVector3 (x (pos s) + x v * delta) (y (pos s) + y v * delta)
                     (z (pos s) + z v * delta)
      /\ (bound < Rabs (x np) ->
          x (pos s') = JS.sign (x np) * bound
          /\ Rabs (x (pos s')) = bound
          /\ x (cell h3 (velocity api)) = - (x v / 2)
          /\ x (vel s') = - (x v / 2) * friction)
      /\ (bound < Rabs (z np) ->
          z (pos s') = JS.sign (z np) * bound
          /\ Rabs (z (pos s')) = bound
          /\ z (cell h3 (velocity api)) = - (z v / 2)
          /\ z (vel s') = - (z v / 2) * friction)
      /\ (Rabs (x np) <= bound ->
          x (pos s') = x np /\ x (cell h3 (velocity api)) = x v)
      /\ (Rabs (z np) <= bound ->
          z (pos s') = z np /\ z (cell h3 (velocity api)) = z v)).
Proof.
  destruct s as [p v c]. cbv zeta. cbn [pos vel ctl].
  destruct (held (keys c) "KeyR") eqn:Hreset.
  - unfold step, frame. cbn [ctl]. rewrite Hreset. run_store.
    rewrite Rabs_R0. unfold bound. split; [lra | discriminate].
  - unfold step, frame, applyThrottle, integrate, boundsCheck.
    cbn [ctl]. rewrite Hreset. cbv zeta.
    destruct (JS.neqb (throttleOf (keys c)) 0); run_store.
    all: split_if_gtb Hbx; run_store.
    all: split_if_gtb Hbz; run_store.
    all: try apply gtb_true in Hbx; try apply gtb_false in Hbx;
      try apply gtb_true in Hbz; try apply gtb_false in Hbz.
    all: try pose proof (sign_times_bound _ Hbx) as Hsx;
      try pose proof (sign_times_bound _ Hbz) as Hsz.
    all: repeat split; intros; try reflexivity; try lra.
Qed.

(** Reset with the accelerator and a steering key held as well. *)
Lemma reset_frame_witness :
  let ks : gmap string bool :=
    <["KeyA" := true]> (<["KeyW" := true]> (<["KeyR" := true]> ∅)) in
  let s := mkState (mkVector3 94 0.5 (-3)) (mkVector3 30 0 7)
                   (mkController true 1 ks) in
  step (1 / 60) s
  = (mkState (mkVector3 0 0.5 0) (mkVector3 0 0 0) (mkController true 0 ks),
     None).
Proof.
  cbv zeta. apply reset_frame. reflexivity.
Defined.

(** Heading for the east wall at speed 60 from [x = 94.5], no key held:
    the integrated [x] is 95.5, the position is clamped to 95 and the
    velocity leaves the frame as [-30 * 0.97]. *)
Lemma neqb_refl a : JS.neqb a a = false.
Proof. now apply JS.neqb_false. Qed.

Lemma vehicle_stays_in_bounds_witness :
  let s := mkState (mkVector3 94.5 0.5 0) (mkVector3 60 0 0)
                   (mkController false 0 ∅) in
  x (pos (fst (step (1 / 60) s))) = JS.sign (94.5 + 60 * (1 / 60)) * bound
  /\ x (vel (fst (step (1 / 60) s))) = - (60 / 2) * friction.
Proof.
  cbv zeta.
  destruct (vehicle_stays_in_bounds (1 / 60)
              (mkState (mkVector3 94.5 0.5 0) (mkVector3 60 0 0)
                 (mkController false 0 ∅))) as [_ H].
  specialize (H eq_refl). cbv zeta in H. unfold applyThrottle in H.
  change (throttleOf (keys (ctl (mkState (mkVector3 94.5 0.5 0)
                                   (mkVector3 60 0 0)
                                   (mkController false 0 ∅))))) with 0 in H.
  rewrite neqb_refl in H. unfold integrate in H. run_store_in H.
  destruct H as (_ & Hx & _).
  assert (Hnp : bound < Rabs (94.5 + 60 * (1 / 60))).
  { unfold bound. rewrite Rabs_right; lra. }
  destruct (Hx Hnp) as (Hpos & _ & _ & Hvel).
  split; [exact Hpos | exact Hvel].
Defined.

(** *** Coasting *)

Lemma noInput_held ks code :
  noInput ks ->
  In code ["KeyR"; "ArrowUp"; "KeyW"; "ArrowDown"; "KeyS";
           "ArrowLeft"; "KeyA"; "ArrowRight"; "KeyD"]%string ->
  held ks code = false.
Proof.
  unfold noInput. rewrite List.Forall_forall. intros H Hin. now apply H.
Qed.

Lemma noInput_throttle ks : noInput ks -> throttleOf ks = 0.
Proof.
  intros H. unfold throttleOf.
  rewrite !(noInput_held ks _ H) by (simpl; tauto). reflexivity.
Qed.

Lemma sign_at_bound a : bound < Rabs a -> ~ Rabs (JS.sign a * bound) < bound.
Proof. intros Ha. rewrite (sign_times_bound a Ha). lra. Qed.

(** A frame with no input and no bounce scales the velocity by the
    friction and keeps the keys. *)
Lemma coast_step (delta : R) (s : State) :
  noInput (keys (ctl s)) ->
  let s' := fst (step delta s) in
  Rabs (x (pos s')) < bound -> Rabs (z (pos s')) < bound ->
  vel s' = mkVector3 (x (vel s) * friction) (y (vel s) * friction)
                     (z (vel s) * friction)
  /\ keys (ctl s') = keys (ctl s).
Proof.
  intros Hkeys s'. subst s'.
  rewrite (frame_effect delta s) by (apply noInput_held; simpl; tauto).
  rewrite (noInput_throttle _ Hkeys), neqb_refl. cbv zeta. cbn [pos vel ctl keys].
  destruct (JS.gtb (Rabs (x (pos s) + x (vel s) * delta)) bound) eqn:Hbx.
  { apply gtb_true in Hbx. intros Hx _. now apply sign_at_bound in Hx. }
  destruct (JS.gtb (Rabs (z (pos s) + z (vel s) * delta)) bound) eqn:Hbz.
  { apply gtb_true in Hbz. intros _ Hz. now apply sign_at_bound in Hz. }
  intros _ _. split; reflexivity.
Qed.

(** A frame with no input that stays within the bound, in full. *)
Lemma coast_frame (delta : R) (s : State) :
  noInput (keys (ctl s)) ->
  Rabs (x (pos s) + x (vel s) * delta) <= bound ->
  Rabs (z (pos s) + z (vel s) * delta) <= bound ->
  fst (step delta s)
  = mkState (mkVector3 (x (pos s) + x (vel s) * delta)
                       (y (pos s) + y (vel s) * delta)
                       (z (pos s) + z (vel s) * delta))
            (mkVector3 (x (vel s) * friction) (y (vel s) * friction)
                       (z (vel s) * friction))
            (mkController false (rotation (ctl s)) (keys (ctl s))).
Proof.
  intros Hkeys Hx Hz.
  rewrite (frame_effect delta s) by (apply noInput_held; simpl; tauto).
  rewrite (noInput_throttle _ Hkeys), neqb_refl. cbv zeta.
  apply gtb_false in Hx, Hz. rewrite Hx, Hz.
  unfold steer. rewrite !(noInput_held _ _ Hkeys) by (simpl; tauto).
  cbn [orb]. replace (JS.ltb 0 0) with false; [reflexivity|].
  symmetry. apply JS.ltb_false. lra.
Qed.

Lemma norm_nonneg v : 0 <= norm v.
Proof. apply sqrt_pos. Qed.

Lemma norm_scale v k :
  0 <= k -> norm (mkVector3 (x v * k) (y v * k) (z v * k)) = norm v * k.
Proof.
  intros Hk. unfold norm. cbn [x y z].
  replace (x v * k * (x v * k) + y v * k * (y v * k) + z v * k * (z v * k))
    with ((x v * x v + y v * y v + z v * z v) * (k * k)) by ring.
  rewrite sqrt_mult_alt.
  - now rewrite (sqrt_square k Hk).
  - pose proof (sq_ge0 (x v)). pose proof (sq_ge0 (y v)).
    pose proof (sq_ge0 (z v)). lra.
Qed.

Lemma coast_steps (deltas : list R) : forall s,
  noInput (keys (ctl s)) -> inside deltas s ->
  speed (steps deltas s) = speed s * friction ^ List.length deltas.
Proof.
  induction deltas as [|delta deltas IH]; intros s Hkeys Hin.
  - simpl. lra.
  - cbn [steps inside List.length pow] in *.
    destruct Hin as (Hx & Hz & Hin).
    destruct (coast_step delta s Hkeys Hx Hz) as [Hvel Hks].
    rewrite IH; [|now rewrite Hks | exact Hin].
    unfold speed at 1. rewrite Hvel, norm_scale by (unfold friction; lra).
    unfold speed. ring.
Qed.

Lemma steps_app (ds es : list R) : forall s,
  steps (ds ++ es) s = steps es (steps ds s).
Proof. induction ds as [|d ds IH]; intros s; simpl; [reflexivity|apply IH]. Qed.

Lemma inside_prefix (ds es : list R) : forall s,
  inside (ds ++ es) s -> inside ds s.
Proof.
  induction ds as [|d ds IH]; intros s H; simpl in *; [exact I|].
  destruct H as (Hx & Hz & H). eauto.
Qed.

(** C5.  Over frames with none of the movement, steering and reset keys
    held, and the position strictly within the bound after each of them,
    the speed after the frames is the speed before times 0.97 to the
    number of frames.  Hence one more such frame never increases the
    speed, and the speed falls below any positive threshold once the
    frames are many enough. *)
Theorem coasting_speed_decay (deltas : list R) (s : State)
  (Hkeys : noInput (keys (ctl s))) (Hinside : inside deltas s) :
  speed (steps deltas s) = speed s * 0.97 ^ List.length deltas
  /\ (forall delta,
        inside (deltas ++ [delta]) s ->
        speed (steps (deltas ++ [delta]) s) <= speed (steps deltas s))
  /\ (forall eps, 0 < eps ->
        exists N, forall more,
            inside more s -> (N <= List.length more)%nat ->
            speed (steps more s) < eps).
Proof.
  split; [exact (coast_steps deltas s Hkeys Hinside)|]. split.
  - intros delta Hin.
    rewrite (coast_steps _ s Hkeys Hin), (coast_steps _ s Hkeys Hinside).
    rewrite length_app. cbn [List.length]. rewrite Nat.add_1_r. cbn [pow].
    pose proof (norm_nonneg (vel s)) as Hs. fold (speed s) in Hs.
    assert (Hpow : 0 <= friction ^ List.length deltas)
      by (apply pow_le; unfold friction; lra).
    unfold friction in *. nra.
  - intros eps Heps.
    pose proof (norm_nonneg (vel s)) as Hs. fold (speed s) in Hs.
    destruct (pow_lt_1_zero 0.97) with (y := eps / (speed s + 1)) as [N HN].
    { rewrite Rabs_right; lra. }
    { apply Rdiv_lt_0_compat; lra. }
    exists N. intros more Hin Hlen.
    rewrite (coast_steps _ s Hkeys Hin). unfold friction.
    specialize (HN (List.length more) Hlen).
    assert (Hpow : 0 <= 0.97 ^ List.length more) by (apply pow_le; lra).
    rewrite Rabs_right in HN by lra.
    assert (Hlt : 0.97 ^ List.length more * (speed s + 1) < eps).
    { apply (Rmult_lt_compat_r (speed s + 1)) in HN; [|lra].
      unfold Rdiv in HN. rewrite Rmult_assoc, Rinv_l in HN; lra. }
    nra.
Qed.

(** Three frames at 60 per second from the origin at speed 10. *)
Lemma coasting_speed_decay_witness :
  let s := mkState (mkVector3 0 0.5 0) (mkVector3 10 0 0)
                   (mkController false 0 ∅) in
  speed (steps [1 / 60; 1 / 60; 1 / 60] s) = speed s * 0.97 ^ 3.
Proof.
  cbv zeta.
  apply (coasting_speed_decay [1 / 60; 1 / 60; 1 / 60]).
  - repeat constructor.
  - cbn [inside].
    repeat (rewrite coast_frame;
            [cbn [pos vel ctl keys rotation x y z]
            | repeat constructor
            | cbn [pos vel x z]; unfold bound, friction;
              rewrite Rabs_right; lra ..]).
    unfold bound, friction.
    repeat split; rewrite Rabs_right; lra.
Defined.
End Vehicle.

(** ** The crates *)

Section CrateFall.
Import Three Crates.

Lemma hits_fall carPos carVel delta c :
  0.5 < y (pos c) ->
  hits carPos carVel delta c
  = JS.ltb (dist (fallen delta c) carPos) (2.0 + 0.8).
Proof.
  intros Hy. apply gtb_true in Hy. destruct c as [p v r ms]. cbn [pos] in Hy.
  unfold hits, moved, gravity, move, fallen. run_store. rewrite Hy.
  run_store. reflexivity.
Qed.

Lemma hits_rest carPos carVel delta c :
  y (pos c) <= 0.5 ->
  hits carPos carVel delta c
  = JS.ltb (dist (rested delta c) carPos) (2.0 + 0.8).
Proof.
  intros Hy. apply gtb_false in Hy. destruct c as [p v r ms]. cbn [pos] in Hy.
  unfold hits, moved, gravity, move, rested. run_store. rewrite Hy.
  run_store. reflexivity.
Qed.

(** A frame of free fall. *)
Lemma fall_step carPos carVel delta c m :
  mesh c = Some m ->
  0.5 < y (pos c) ->
  hits carPos carVel delta c = false ->
  let rot' := mkVector3 (x (rot c) + z (vel c) * delta * 0.5) (y (rot c))
                        (z (rot c) - x (vel c) * delta * 0.5) in
  step carPos carVel delta c
  = (mkState (fallen delta c)
       (mkVector3 (x (vel c)) (y (vel c) - 20 * delta) (z (vel c)))
       rot' (Some (mkShown (fallen delta c) rot')),
     None).
Proof.
  intros Hmesh Hy Hhit. rewrite hits_fall in Hhit by exact Hy.
  apply gtb_true in Hy. destruct c as [p v r ms]. cbn [mesh pos] in *.
  subst ms. unfold fallen in *. run_store_in Hhit.
  crate_run. rewrite Hy. run_store. rewrite Hhit. run_store. reflexivity.
Qed.

(** A frame on the ground. *)
Lemma rest_step carPos carVel delta c m :
  mesh c = Some m ->
  y (pos c) <= 0.5 ->
  hits carPos carVel delta c = false ->
  let vel' := mkVector3 (x (vel c) * 0.90) (0 * 0.90) (z (vel c) * 0.90) in
  let rot' := mkVector3 (x (rot c) + z vel' * delta * 0.5) (y (rot c))
                        (z (rot c) - x vel' * delta * 0.5) in
  step carPos carVel delta c
  = (mkState (rested delta c) vel' rot'
       (Some (mkShown (rested delta c) rot')),
     None).
Proof.
  intros Hmesh Hy Hhit. rewrite hits_rest in Hhit by exact Hy.
  apply gtb_false in Hy. destruct c as [p v r ms]. cbn [mesh pos] in *.
  subst ms. unfold rested in *. run_store_in Hhit.
  crate_run. rewrite Hy. run_store. rewrite Hhit. run_store. reflexivity.
Qed.

(** A crate whose mesh is not mounted is skipped. *)
Lemma unmounted_step carPos carVel delta c :
  mesh c = None -> step carPos carVel delta c = (c, None).
Proof.
  intros Hmesh. destruct c as [p v r ms]. cbn [mesh] in Hmesh. subst ms.
  crate_run. reflexivity.
Qed.

Lemma rest_run carPos carVel (deltas : list R) : forall c,
  mesh c <> None -> y (pos c) = 0.5 -> y (vel c) = 0 ->
  untouched carPos carVel deltas c ->
  y (pos (steps carPos carVel deltas c)) = 0.5
  /\ y (vel (steps carPos carVel deltas c)) = 0.
Proof.
  induction deltas as [|delta deltas IH]; intros c Hmesh Hy Hvy Hfree.
  - now split.
  - cbn [steps untouched] in *. destruct Hfree as [Hhit Hfree].
    destruct (mesh c) as [m|] eqn:Hm; [|contradiction].
    rewrite (rest_step carPos carVel delta c m Hm) in * by (exact Hhit || lra).
    cbn [fst] in *. apply IH; cbn [mesh pos vel rested y]; try easy; lra.
Qed.

(** C1, as the code has it.  For a crate whose mesh is mounted, in a
    frame that finds it out of reach of the vehicle: a crate that starts
    the frame above the resting height 0.5 has 20 times the frame time
    taken from its vertical velocity and then moves by the new velocity;
    a crate that starts the frame at or below the resting height has its
    vertical velocity set to zero and its height set to 0.5, and keeps
    both through every later frame out of reach of the vehicle.  The
    crate ends the frame below the resting height only if it started the
    frame above it, and the next frame puts it back at 0.5.  The mesh
    shows the crate where the frame leaves it. *)
Theorem crate_height_rule
  (carPos carVel : Vector3) (delta : R) (c : State) (m : Shown)
  (Hmesh : mesh c = Some m)
  (Hfree : hits carPos carVel delta c = false) :
  let c' := fst (step carPos carVel delta c) in
  (0.5 < y (pos c) ->
   y (vel c') = y (vel c) - 20 * delta
   /\ y (pos c') = y (pos c) + y (vel c') * delta)
  /\ (y (pos c) <= 0.5 -> y (vel c') = 0 /\ y (pos c') = 0.5)
  /\ (y (pos c) <= 0.5 ->
      forall deltas,
        untouched carPos carVel deltas c' ->
        y (pos (steps carPos carVel deltas c')) = 0.5
        /\ y (vel (steps carPos carVel deltas c')) = 0)
  /\ (y (pos c') < 0.5 ->
      0.5 < y (pos c)
      /\ forall delta',
          hits carPos carVel delta' c' = false ->
          y (pos (fst (step carPos carVel delta' c'))) = 0.5
          /\ y (vel (fst (step carPos carVel delta' c'))) = 0)
  /\ mesh c' = Some (mkShown (pos c') (rot c')).
Proof.
  cbv zeta. destruct (Rlt_dec 0.5 (y (pos c))) as [Habove|Hnot].
  - rewrite (fall_step carPos carVel delta c m Hmesh Habove Hfree).
    cbn [fst pos vel rot mesh fallen y].
    split; [|split; [|split; [|split]]]; try reflexivity.
    + intros _. split; reflexivity.
    + intros Hle. lra.
    + intros Hle. lra.
    + intros Hbelow. split; [exact Habove|]. intros delta' Hhit.
      erewrite (rest_step carPos carVel delta');
        [cbn; lra | reflexivity | cbn; lra | exact Hhit].
  - assert (Hle : y (pos c) <= 0.5) by lra.
    rewrite (rest_step carPos carVel delta c m Hmesh Hle Hfree).
    cbn [fst pos vel rot mesh rested y].
    split; [|split; [|split; [|split]]]; try reflexivity.
    + intros Habove. lra.
    + intros _. lra.
    + intros _ deltas Hun. apply rest_run in Hun; cbn; try easy; lra.
    + intros Hbelow. lra.
Qed.

Lemma out_of_reach a b :
  2.8 <= Rabs (z a - z b) -> JS.ltb (dist a b) (2.0 + 0.8) = false.
Proof.
  intros Hfar. apply JS.ltb_false.
  destruct (Rlt_dec (dist a b) (2.0 + 0.8)) as [Hlt|Hge]; [|lra].
  apply dist_lt in Hlt; [|lra]. unfold distSq in Hlt. cbv zeta in Hlt.
  pose proof (sq_ge0 (x a - x b)). pose proof (sq_ge0 (y a - y b)).
  assert (Hz : 2.8 * 2.8 <= (z a - z b) * (z a - z b)).
  { unfold Rabs in Hfar. destruct (Rcase_abs (z a - z b)); nra. }
  lra.
Qed.

(** The vehicle parked at the origin and a crate of the wall at rest on
    the ground: frames leave its height at 0.5. *)
Lemma crate_height_rule_witness :
  let c := wallCrate (-5) 0 in
  let c' := fst (step (Car.pos Car.init) (Car.vel Car.init) (1 / 60) c) in
  y (vel c') = 0 /\ y (pos c') = 0.5.
Proof.
  cbv zeta.
  apply (crate_height_rule (Car.pos Car.init) (Car.vel Car.init) (1 / 60)
           (wallCrate (-5) 0) _ eq_refl).
  - rewrite hits_rest by (cbn; lra). apply out_of_reach. cbn.
    rewrite Rabs_right; lra.
  - cbn. lra.
Defined.

Ltac fall_once :=
  match goal with
  | |- context [step ?a ?b ?d (mkState ?p ?v ?r (Some ?m))] =>
      rewrite (fall_step a b d (mkState p v r (Some m)) m eq_refl);
      [ unfold fallen; cbn [fst pos vel rot mesh x y z]
      | cbn [pos y]; lra
      | rewrite hits_fall by (cbn [pos y]; lra); apply out_of_reach;
        unfold fallen; cbn [pos vel x y z Car.pos Car.init];
        rewrite Rabs_right; lra ]
  end.

(** C1 fails as stated.  The vehicle parked at the origin, and the wall
    crate created at height 1.6 in the column [x = -5]: after twenty
    frames at 60 per second the crate, and the mesh that shows it, are
    at height 13/30, below the resting height 0.5. *)
Lemma wall_crate_sinks_below_rest :
  let c := wallCrate (-5) 1 in
  let c20 := steps (Car.pos Car.init) (Car.vel Car.init)
               (repeat (1 / 60) 20) c in
  In c wall
  /\ y (pos c20) = 13 / 30
  /\ option_map (fun m => y (shown_position m)) (mesh c20) = Some (y (pos c20))
  /\ y (pos c20) < 0.5.
Proof.
  cbv zeta.
  assert (Hrun : exists c20,
             steps (Car.pos Car.init) (Car.vel Car.init) (repeat (1 / 60) 20)
               (wallCrate (-5) 1) = c20
             /\ y (pos c20) = 13 / 30
             /\ option_map (fun m => y (shown_position m)) (mesh c20)
                = Some (y (pos c20))).
  { unfold wallCrate. cbn [repeat steps]. eexists. split.
    - do 20 fall_once. reflexivity.
    - cbn [pos mesh option_map shown_position y].
      split; [lra | reflexivity]. }
  destruct Hrun as (c20 & -> & Hy & Hshown).
  split; [|split; [exact Hy | split; [exact Hshown | lra]]].
  unfold wall. cbn. tauto.
Qed.
End CrateFall.

Section CrateHit.
Import Three Crates.

(** What the collision branch does, on the store it finds: the vehicle
    in cells 0 and 1, the crate in cells 2 and 3, eight vectors
    allocated.  [direction] and [forceVec] are one object, cell 8: the
    velocity receives the force, and the position is pushed by the
    force scaled by the overlap, not by the unit direction. *)
Lemma collide_effect (f : Ref -> Vector3) (dist minDist : R) :
  let carPos := f 0%nat in
  let carVel := f 1%nat in
  let p := f 2%nat in
  let v := f 3%nat in
  let l := JS.or_else
             (norm (mkVector3 (x p - x carPos) (y p - y carPos) (z p - z carPos)))
             1 in
  let impactForce := norm carVel * 1.5 in
  let force := mkVector3 ((x p - x carPos) * (1 / l) * impactForce)
                         (Rmin (impactForce * 0.5) 10)
                         ((z p - z carPos) * (1 / l) * impactForce) in
  let h' := snd (collide Car.api slot dist minDist (mkHeap 8%nat f)) in
  cell h' 8%nat = force
  /\ cell h' 3%nat = mkVector3 (x v + x force) (y v + y force) (z v + z force)
  /\ cell h' 2%nat
     = mkVector3 (x p + x force * (minDist - dist))
                 (y p + y force * (minDist - dist))
                 (z p + z force * (minDist - dist)).
Proof.
  cbv zeta. unfold collide. run_store. unfold norm. cbn [x y z].
  repeat split.
Qed.

Lemma norm_zero : norm (mkVector3 0 0 0) = 0.
Proof.
  unfold norm. cbn [x y z].
  replace (0 * 0 + 0 * 0 + 0 * 0) with 0 by ring. apply sqrt_0.
Qed.

(** A crate on the ground within reach of a vehicle that stands still is
    left where the move put it: the force is zero, and so is the push. *)
Lemma parked_vehicle_no_push carPos delta c m :
  mesh c = Some m ->
  y (pos c) <= 0.5 ->
  hits carPos (mkVector3 0 0 0) delta c = true ->
  pos (fst (step carPos (mkVector3 0 0 0) delta c)) = rested delta c.
Proof.
  intros Hmesh Hy Hhit. rewrite hits_rest in Hhit by exact Hy.
  apply gtb_false in Hy. destruct c as [p v r ms]. cbn [mesh pos] in *.
  subst ms. unfold rested in *. run_store_in Hhit.
  crate_run. rewrite Hy. run_store. rewrite Hhit.
  unfold collide. run_store.
  rewrite !norm_zero.
  replace (Rmin (0 * 1.5 * 0.5) 10) with 0
    by (unfold Rmin; destruct (Rle_dec (0 * 1.5 * 0.5) 10); lra).
  f_equal; ring.
Qed.

(** C6 at a vehicle standing still at its starting place and a crate
    at rest on the ground one unit to its side: the frame finds the
    crate within reach, and leaves it where it is, at distance 1 from
    the vehicle, inside the vehicle radius plus the crate margin. *)
Theorem parked_car_leaves_crate_inside :
  let carPos := mkVector3 0 0.5 0 in
  let carVel := mkVector3 0 0 0 in
  let c := mkState (mkVector3 1 0.5 0) (mkVector3 0 0 0) (mkVector3 0 0 0)
                   (Some (mkShown (mkVector3 1 0.5 0) (mkVector3 0 0 0))) in
  let c' := fst (step carPos carVel (1 / 60) c) in
  hits carPos carVel (1 / 60) c = true
  /\ pos c' = mkVector3 1 0.5 0
  /\ dist (pos c') carPos = 1
  /\ dist (pos c') carPos < Car.radius Car.api + 0.8.
Proof.
  cbv zeta.
  assert (Hhit : hits (mkVector3 0 0.5 0) (mkVector3 0 0 0) (1 / 60)
                   (mkState (mkVector3 1 0.5 0) (mkVector3 0 0 0)
                      (mkVector3 0 0 0)
                      (Some (mkShown (mkVector3 1 0.5 0) (mkVector3 0 0 0))))
                 = true).
  { rewrite hits_rest by (cbn; lra). apply JS.ltb_true.
    apply dist_lt; [lra|]. unfold distSq, rested. cbn. lra. }
  assert (Hpos : pos (fst (step (mkVector3 0 0.5 0) (mkVector3 0 0 0) (1 / 60)
                        (mkState (mkVector3 1 0.5 0) (mkVector3 0 0 0)
                           (mkVector3 0 0 0)
                           (Some (mkShown (mkVector3 1 0.5 0)
                                          (mkVector3 0 0 0))))))
                 = mkVector3 1 0.5 0).
  { erewrite parked_vehicle_no_push;
      [unfold rested; cbn; f_equal; lra | reflexivity | cbn; lra | exact Hhit]. }
  assert (Hdist : dist (mkVector3 1 0.5 0) (mkVector3 0 0.5 0) = 1).
  { unfold dist, distSq. cbn.
    replace ((1 - 0) * (1 - 0) + (0.5 - 0.5) * (0.5 - 0.5) + (0 - 0) * (0 - 0))
      with (1 * 1) by ring.
    apply sqrt_square. lra. }
  rewrite Hpos, Hdist. repeat split; try assumption. cbn. lra.
Qed.
End CrateHit.



(** * Further properties *)

(** ** The keyboard and the throttle *)

Section VehicleMore.
Import Three Car Drive.

Lemma steps_keys (deltas : list R) : forall s,
  keys (ctl (steps deltas s)) = keys (ctl s).
Proof.
  induction deltas as [|delta deltas IH]; intros s; [reflexivity|].
  cbn [steps]. rewrite IH.
  destruct (held (keys (ctl s)) "KeyR") eqn:Hr.
  - unfold Car.step, Car.frame. rewrite Hr. run_store. reflexivity.
  - now rewrite (frame_effect delta s Hr).
Qed.

Lemma frame_car (delta : R) (w : World) :
  car (Drive.frame delta w) = fst (Car.step delta (car w)).
Proof.
  unfold Drive.frame.
  destruct (Car.step delta (car w)) as [s' [currentSpeed|]];
    [destruct (Sound.updateEngine (sound w) currentSpeed)|]; reflexivity.
Qed.

(** X1.  A key is held exactly from its [keydown] to its next [keyup]:
    after any keys and frames from the start of the scene, a code reads
    as held if and only if the last key event with that code was a
    [keydown].  No frame changes which keys are held, not even a frame
    that resets the vehicle, so a key whose [keyup] never arrives stays
    held. *)
Theorem key_held_until_released (events : list Event) (code : string) :
  held (keys (ctl (car (run events start)))) code
  = fold_left (fun down e =>
                 match e with
                 | KeyDown c _ => if String.eqb c code then true else down
                 | KeyUp c => if String.eqb c code then false else down
                 | Frame _ => down
                 end) events false.
Proof.
  change false with (held (keys (ctl (car start))) code) at 2.
  unfold run. generalize start.
  induction events as [|e events IH]; intros w; [reflexivity|].
  cbn [fold_left]. rewrite IH. f_equal.
  destruct e as [c fresh|c|delta]; cbn [handle car withCtl ctl].
  - unfold onKeyDown, held. cbn [keys].
    destruct (String.eqb c code) eqn:Hc.
    + apply String.eqb_eq in Hc. subst c. now rewrite lookup_insert_eq.
    + apply String.eqb_neq in Hc. now rewrite lookup_insert_ne.
  - unfold onKeyUp, held. cbn [keys].
    destruct (String.eqb c code) eqn:Hc.
    + apply String.eqb_eq in Hc. subst c. now rewrite lookup_insert_eq.
    + apply String.eqb_neq in Hc. now rewrite lookup_insert_ne.
  - rewrite frame_car.
    change (fst (Car.step delta (car w))) with (steps [delta] (car w)).
    now rewrite steps_keys.
Qed.

Lemma throttle_cases ks :
  throttleOf ks
  = if accelerating ks then (if reversing ks then 0 + 1 - 1 else 0 + 1)
    else (if reversing ks then 0 - 1 else 0).
Proof.
  unfold throttleOf, accelerating, reversing.
  destruct (held ks "ArrowUp" || held ks "KeyW");
    destruct (held ks "ArrowDown" || held ks "KeyS"); reflexivity.
Qed.

(** X2.  In a frame without reset the braking flag, and with it the
    bright tail light, is on exactly when a reverse key is held and no
    accelerate key is.  With both kinds of key held, or none, the
    throttle leaves the velocity as it is. *)
Theorem brake_flag_and_cancelling_pedals (delta : R) (s : State)
  (Hdrive : held (keys (ctl s)) "KeyR" = false) :
  let ks := keys (ctl s) in
  let s' := fst (step delta s) in
  isBraking (ctl s') = reversing ks && negb (accelerating ks)
  /\ CarView.tailLight (isBraking (ctl s'))
     = (if reversing ks && negb (accelerating ks)
        then (4, 0xff0000%Z) else (1, 0x550000%Z))
  /\ (accelerating ks = reversing ks ->
      cell (snd (applyThrottle api (rotation (ctl s)) (throttleOf ks)
                   (accAmountOf ks) delta (storeOf s)))
           (velocity api)
      = vel s).
Proof.
  cbv zeta. rewrite (frame_effect delta s Hdrive). cbn [ctl isBraking].
  assert (Hb : JS.ltb (throttleOf (keys (ctl s))) 0
               = reversing (keys (ctl s)) && negb (accelerating (keys (ctl s)))).
  { rewrite throttle_cases.
    destruct (accelerating (keys (ctl s))), (reversing (keys (ctl s))); cbn.
    - apply JS.ltb_false. lra.
    - apply JS.ltb_false. lra.
    - apply JS.ltb_true. lra.
    - apply JS.ltb_false. lra. }
  rewrite Hb. split; [reflexivity|]. split.
  - unfold CarView.tailLight. reflexivity.
  - intros Heq. unfold applyThrottle. rewrite throttle_cases, Heq.
    destruct s as [p v c]. cbn [pos vel ctl].
    replace (JS.neqb (if reversing (keys c)
                      then if reversing (keys c) then 0 + 1 - 1 else 0 + 1
                      else if reversing (keys c) then 0 - 1 else 0) 0)
      with false.
    + run_store. reflexivity.
    + symmetry. apply JS.neqb_false. destruct (reversing (keys c)); lra.
Qed.

Lemma brake_flag_and_cancelling_pedals_witness :
  let ks : gmap string bool := <["KeyS" := true]> (<["KeyW" := true]> ∅) in
  let s := mkState (mkVector3 0 0.5 0) (mkVector3 3 0 4) (mkController true 0 ks) in
  cell (snd (applyThrottle api 0 (throttleOf ks) (accAmountOf ks) (1 / 60)
               (storeOf s)))
       (velocity api)
  = mkVector3 3 0 4.
Proof.
  cbv zeta.
  refine (proj2 (proj2 (brake_flag_and_cancelling_pedals (1 / 60)
              (mkState (mkVector3 0 0.5 0) (mkVector3 3 0 4)
                 (mkController true 0
                    (<["KeyS" := true]> (<["KeyW" := true]> ∅)))) _)) _);
    reflexivity.
Defined.

Lemma sqrt_sq_abs a : sqrt (a * a) = Rabs a.
Proof. rewrite <- (sqrt_Rsqr_abs a). reflexivity. Qed.

(** X3.  The throttle of a frame: with an accelerate key held and no
    reverse key, the velocity gains 40 times the frame time against the
    heading vector (sin, 0, cos), 80 times with a shift key held; with a
    reverse key and no accelerate key it gains 30 times the frame time
    along the heading vector, whatever the shift keys.  The size of the
    gain is that acceleration times the size of the frame time. *)
Theorem acceleration_by_pedal (delta : R) (s : State) :
  let ks := keys (ctl s) in
  let r := rotation (ctl s) in
  let v := vel s in
  let v1 := cell (snd (applyThrottle api r (throttleOf ks) (accAmountOf ks)
                         delta (storeOf s)))
                 (velocity api) in
  let gain := mkVector3 (x v1 - x v) (y v1 - y v) (z v1 - z v) in
  (accelerating ks = true -> reversing ks = false ->
   let a := if boosting ks then 80 else 40 in
   v1 = mkVector3 (x v - sin r * (a * delta)) (y v) (z v - cos r * (a * delta))
   /\ norm gain = a * Rabs delta)
  /\ (reversing ks = true -> accelerating ks = false ->
      v1 = mkVector3 (x v + sin r * (30 * delta)) (y v)
                     (z v + cos r * (30 * delta))
      /\ norm gain = 30 * Rabs delta).
Proof.
  cbv zeta. destruct s as [p v c]. cbn [pos vel ctl].
  unfold applyThrottle, accAmountOf. fold (boosting (keys c)).
  rewrite throttle_cases. split; intros H1 H2; rewrite H1, H2.
  - replace (JS.neqb (0 + 1) 0) with true
      by (symmetry; apply JS.neqb_true; lra).
    replace (JS.gtb (0 + 1) 0) with true
      by (symmetry; apply gtb_true; lra).
    run_store. split; [f_equal; ring|].
    unfold norm. cbn [x y z].
    set (a := if boosting (keys c) then 80 else 40).
    assert (Ha : 0 <= a) by (subst a; destruct (boosting (keys c)); lra).
    replace (_ + _ + _)
      with ((a * delta) * (a * delta) * ((sin (rotation c))² + (cos (rotation c))²))
      by (unfold Rsqr; ring).
    rewrite sin2_cos2, Rmult_1_r, sqrt_sq_abs, Rabs_mult, (Rabs_right a); lra.
  - replace (JS.neqb (0 - 1) 0) with true
      by (symmetry; apply JS.neqb_true; lra).
    replace (JS.gtb (0 - 1) 0) with false
      by (symmetry; apply gtb_false; lra).
    run_store. split; [f_equal; ring|].
    unfold norm. cbn [x y z].
    replace (_ + _ + _)
      with ((30 * delta) * (30 * delta) * ((sin (rotation c))² + (cos (rotation c))²))
      by (unfold Rsqr; ring).
    rewrite sin2_cos2, Rmult_1_r, sqrt_sq_abs, Rabs_mult, (Rabs_right 30); lra.
Qed.

Lemma acceleration_by_pedal_witness :
  let ks : gmap string bool := <["ShiftLeft" := true]> (<["KeyS" := true]> ∅) in
  let s := mkState (mkVector3 0 0.5 0) (mkVector3 0 0 0) (mkController false 0 ks) in
  cell (snd (applyThrottle api 0 (throttleOf ks) (accAmountOf ks) (1 / 60)
               (storeOf s)))
       (velocity api)
  = mkVector3 (0 + sin 0 * (30 * (1 / 60))) 0 (0 + cos 0 * (30 * (1 / 60))).
Proof.
  cbv zeta.
  refine (proj1 (proj2 (acceleration_by_pedal (1 / 60)
              (mkState (mkVector3 0 0.5 0) (mkVector3 0 0 0)
                 (mkController false 0
                    (<["ShiftLeft" := true]> (<["KeyS" := true]> ∅))))) _ _));
    reflexivity.
Defined.

(** X4.  Over frames without reset the heading changes by three times
    the time elapsed for a left key held, and by as much the other way
    for a right key; with both held, or none, it stays.  Throttle and
    bounces play no role. *)
Theorem heading_turns_with_time (deltas : list R) (s : State)
  (Hdrive : held (keys (ctl s)) "KeyR" = false) :
  let ks := keys (ctl s) in
  rotation (ctl (steps deltas s))
  = rotation (ctl s)
    + 3 * ((if steeringLeft ks then 1 else 0) - (if steeringRight ks then 1 else 0))
      * elapsed deltas.
Proof.
  cbv zeta. revert s Hdrive.
  induction deltas as [|delta deltas IH]; intros s Hdrive.
  - cbn. lra.
  - cbn [steps elapsed fold_right].
    rewrite IH; rewrite (frame_effect delta s Hdrive); cbn [ctl keys rotation];
      [|exact Hdrive].
    unfold steer. fold (steeringLeft (keys (ctl s))).
    fold (steeringRight (keys (ctl s))).
    fold (elapsed deltas).
    destruct (steeringLeft (keys (ctl s))), (steeringRight (keys (ctl s))); lra.
Qed.

Lemma heading_turns_with_time_witness :
  let s := mkState (mkVector3 0 0.5 0) (mkVector3 0 0 0)
                   (mkController false 0 (<["KeyA" := true]> ∅)) in
  rotation (ctl (steps [1 / 60; 1 / 30] s)) = 0 + 3 * (1 - 0) * (1 / 60 + (1 / 30 + 0)).
Proof.
  cbv zeta.
  assert (Hdrive : held (<["KeyA" := true]> ∅) "KeyR" = false) by reflexivity.
  exact (heading_turns_with_time [1 / 60; 1 / 30]
           (mkState (mkVector3 0 0.5 0) (mkVector3 0 0 0)
              (mkController false 0 (<["KeyA" := true]> ∅))) Hdrive).
Defined.

End VehicleMore.

(** ** A session at the wheel *)

Section Session.
Import Three Car Drive.

Lemma step_within (delta : R) (s : State) :
  Rabs (x (pos (fst (step delta s)))) <= bound
  /\ Rabs (z (pos (fst (step delta s)))) <= bound.
Proof.
  destruct (held (keys (ctl s)) "KeyR") eqn:Hreset.
  - unfold Car.step, Car.frame. rewrite Hreset. run_store.
    rewrite Rabs_R0. unfold bound. lra.
  - rewrite (frame_effect delta s Hreset). cbv zeta. cbn [pos x z].
    split; split_if_gtb Hb;
      try (apply gtb_true in Hb; rewrite (sign_times_bound _ Hb); lra);
      apply gtb_false in Hb; exact Hb.
Qed.

Lemma run_invariant (P : World -> Prop) :
  (forall w e, P w -> P (handle w e)) ->
  forall events w, P w -> P (run events w).
Proof.
  intros Hstep. unfold run.
  induction events as [|e events IH]; intros w Hw; [exact Hw|].
  cbn [fold_left]. apply IH. now apply Hstep.
Qed.

Lemma handle_grounded (w : World) (e : Event) :
  y (pos (car w)) = 0.5 /\ y (vel (car w)) = 0
  /\ Rabs (x (pos (car w))) <= bound /\ Rabs (z (pos (car w))) <= bound ->
  y (pos (car (handle w e))) = 0.5 /\ y (vel (car (handle w e))) = 0
  /\ Rabs (x (pos (car (handle w e)))) <= bound
  /\ Rabs (z (pos (car (handle w e)))) <= bound.
Proof.
  intros (Hy & Hv & Hx & Hz). destruct e as [code fresh|code|delta].
  - repeat split; assumption.
  - repeat split; assumption.
  - cbn [handle]. unfold Drive.frame.
    destruct (ride_height delta (car w) Hy Hv) as [Hy' Hv'].
    destruct (step_within delta (car w)) as [Hx' Hz'].
    destruct (Car.step delta (car w)) as [s' [currentSpeed|]];
      [destruct (Sound.updateEngine (sound w) currentSpeed)|];
      cbn [car fst] in *; repeat split; assumption.
Qed.

(** X5.  Whatever keys are pressed and released and whatever the frame
    times, from the start of the scene the vehicle stays on the ground:
    its height is 0.5, its vertical velocity is 0, and it is within 95
    of the origin on both planar axes. *)
Theorem vehicle_never_leaves_the_ground (events : list Event) :
  let s := car (run events start) in
  y (pos s) = 0.5 /\ y (vel s) = 0
  /\ Rabs (x (pos s)) <= bound /\ Rabs (z (pos s)) <= bound.
Proof.
  cbv zeta.
  apply (run_invariant
           (fun w => y (pos (car w)) = 0.5 /\ y (vel (car w)) = 0
                     /\ Rabs (x (pos (car w))) <= bound
                     /\ Rabs (z (pos (car w))) <= bound)).
  - apply handle_grounded.
  - unfold start, init, bound. cbn. rewrite Rabs_R0. lra.
Qed.

End Session.

(** ** Speed *)

Section Speed.
Import Three Car Drive.

Lemma sqrt_le_of_sq a b : 0 <= b -> a <= b * b -> sqrt a <= b.
Proof.
  intros Hb Hab. rewrite <- (sqrt_square b Hb). now apply sqrt_le_1_alt.
Qed.

Lemma normSq_nonneg v : 0 <= x v * x v + y v * y v + z v * z v.
Proof.
  pose proof (sq_ge0 (x v)). pose proof (sq_ge0 (y v)).
  pose proof (sq_ge0 (z v)). lra.
Qed.

Lemma norm_sq v : norm v * norm v = x v * x v + y v * y v + z v * z v.
Proof. unfold norm. apply sqrt_sqrt, normSq_nonneg. Qed.

(** Cauchy and Schwarz, in three dimensions. *)
Lemma dot_le_norms u v : dot u v <= norm u * norm v.
Proof.
  assert (Hsq : dot u v * dot u v <= (norm u * norm v) * (norm u * norm v)).
  { replace (norm u * norm v * (norm u * norm v))
      with ((norm u * norm u) * (norm v * norm v)) by ring.
    rewrite !norm_sq. unfold dot.
    pose proof (sq_ge0 (x u * y v - y u * x v)).
    pose proof (sq_ge0 (x u * z v - z u * x v)).
    pose proof (sq_ge0 (y u * z v - z u * y v)).
    nra. }
  pose proof (norm_nonneg u). pose proof (norm_nonneg v).
  assert (Hp : 0 <= norm u * norm v) by nra.
  destruct (Rle_dec (dot u v) (norm u * norm v)) as [Hle|Hgt]; [exact Hle|].
  exfalso. nra.
Qed.

(** The triangle inequality of [length()]. *)
Lemma norm_triangle u v :
  norm (mkVector3 (x u + x v) (y u + y v) (z u + z v)) <= norm u + norm v.
Proof.
  pose proof (norm_nonneg u). pose proof (norm_nonneg v).
  unfold norm at 1. cbn [x y z]. apply sqrt_le_of_sq; [lra|].
  pose proof (dot_le_norms u v) as Hd. unfold dot in Hd.
  pose proof (norm_sq u). pose proof (norm_sq v). nra.
Qed.

Lemma norm_mono a b c a' c' :
  a * a <= a' * a' -> c * c <= c' * c' ->
  norm (mkVector3 a b c) <= norm (mkVector3 a' b c').
Proof.
  intros Ha Hc. unfold norm. cbn [x y z]. apply sqrt_le_1_alt. lra.
Qed.

(** The velocity the throttle leaves, as [frame_effect] has it. *)
Lemma throttled_speed (delta : R) (s : State)
  (Hdrive : held (keys (ctl s)) "KeyR" = false) :
  let c := ctl s in
  let t := throttleOf (keys c) in
  let a := accAmountOf (keys c) in
  let vx := if JS.neqb t 0 then x (vel s) - sin (rotation c) * t * a * delta
            else x (vel s) in
  let vz := if JS.neqb t 0 then z (vel s) - cos (rotation c) * t * a * delta
            else z (vel s) in
  speed (fst (step delta s)) <= norm (mkVector3 vx (y (vel s)) vz) * friction.
Proof.
  cbv zeta. rewrite (frame_effect delta s Hdrive). cbv zeta. unfold speed.
  cbn [vel].
  match goal with
  | |- norm (mkVector3 (?a * friction) (?b * friction) (?c * friction)) <= _ =>
      change (norm (mkVector3 (x (mkVector3 a b c) * friction)
                              (y (mkVector3 a b c) * friction)
                              (z (mkVector3 a b c) * friction)) <=
              norm (mkVector3
                      (if JS.neqb (throttleOf (keys (ctl s))) 0
                       then x (vel s) - sin (rotation (ctl s))
                              * throttleOf (keys (ctl s))
                              * accAmountOf (keys (ctl s)) * delta
                       else x (vel s))
                      (y (vel s))
                      (if JS.neqb (throttleOf (keys (ctl s))) 0
                       then z (vel s) - cos (rotation (ctl s))
                              * throttleOf (keys (ctl s))
                              * accAmountOf (keys (ctl s)) * delta
                       else z (vel s))) * friction)
  end.
  rewrite norm_scale by (unfold friction; lra).
  apply Rmult_le_compat_r; [unfold friction; lra|].
  apply norm_mono; split_if_gtb Hb; nra.
Qed.

Lemma speed_nonneg s : 0 <= speed s.
Proof. apply norm_nonneg. Qed.

Lemma reset_speed (delta : R) (s : State) :
  held (keys (ctl s)) "KeyR" = true -> speed (fst (step delta s)) = 0.
Proof.
  intros Hreset. unfold Car.step, Car.frame. rewrite Hreset. run_store.
  unfold speed. cbn [vel]. apply norm_zero.
Qed.

Lemma norm_eta v : norm (mkVector3 (x v) (y v) (z v)) = norm v.
Proof. now destruct v. Qed.

Lemma released_step (delta : R) (s : State) :
  accelerating (keys (ctl s)) = reversing (keys (ctl s)) ->
  speed (fst (step delta s)) <= speed s * friction.
Proof.
  intros Hp. pose proof (speed_nonneg s).
  destruct (held (keys (ctl s)) "KeyR") eqn:Hreset.
  - rewrite reset_speed by exact Hreset. unfold friction. nra.
  - pose proof (throttled_speed delta s Hreset) as H0. cbv zeta in H0.
    assert (Ht : throttleOf (keys (ctl s)) = 0).
    { rewrite throttle_cases, Hp. destruct (reversing (keys (ctl s))); lra. }
    rewrite Ht, neqb_refl, norm_eta in H0. exact H0.
Qed.

(** X6.  With the pedals released, or an accelerate and a reverse key
    held together, the vehicle never gains speed: after n frames its
    speed is at most 0.97 to the power n times what it was, whatever the
    frame times, the steering and shift keys, the bounces off the walls
    and the reset key. *)
Theorem released_pedals_lose_speed (deltas : list R) (s : State)
  (Hpedals : accelerating (keys (ctl s)) = reversing (keys (ctl s))) :
  speed (steps deltas s) <= speed s * friction ^ List.length deltas.
Proof.
  revert s Hpedals.
  induction deltas as [|delta deltas IH]; intros s Hpedals.
  - cbn. lra.
  - cbn [steps List.length pow].
    assert (Hk : keys (ctl (fst (step delta s))) = keys (ctl s))
      by apply (steps_keys [delta] s).
    eapply Rle_trans; [apply IH; now rewrite Hk|].
    pose proof (released_step delta s Hpedals).
    assert (0 <= friction ^ List.length deltas)
      by (apply pow_le; unfold friction; lra).
    nra.
Qed.

Lemma released_pedals_lose_speed_witness :
  let s := mkState (mkVector3 94.5 0.5 0) (mkVector3 60 0 0)
                   (mkController false 0 (<["KeyA" := true]> ∅)) in
  speed (steps [1 / 60; 1 / 60] s) <= speed s * friction ^ 2.
Proof.
  cbv zeta.
  assert (Hpedals :
            accelerating (<["KeyA" := true]> ∅)
            = reversing (<["KeyA" := true]> ∅)) by reflexivity.
  exact (released_pedals_lose_speed [1 / 60; 1 / 60]
           (mkState (mkVector3 94.5 0.5 0) (mkVector3 60 0 0)
              (mkController false 0 (<["KeyA" := true]> ∅))) Hpedals).
Defined.

Lemma norm_heading r k :
  norm (mkVector3 (- sin r * k) 0 (- cos r * k)) = Rabs k.
Proof.
  unfold norm. cbn [x y z].
  replace (_ + _ + _) with (k * k * ((sin r)² + (cos r)²))
    by (unfold Rsqr; ring).
  rewrite sin2_cos2, Rmult_1_r. apply sqrt_sq_abs.
Qed.

Lemma throttle_acc_bound ks : Rabs (throttleOf ks * accAmountOf ks) <= 80.
Proof.
  rewrite Rabs_mult.
  assert (Ht : Rabs (throttleOf ks) <= 1).
  { rewrite throttle_cases.
    destruct (accelerating ks), (reversing ks);
      apply Rabs_le; lra. }
  assert (Ha : 0 <= accAmountOf ks <= 80).
  { unfold accAmountOf. cbv zeta.
    destruct (JS.gtb (throttleOf ks) 0);
      [destruct (held ks "ShiftLeft" || held ks "ShiftRight")|]; lra. }
  rewrite (Rabs_right (accAmountOf ks)) by lra.
  pose proof (Rabs_pos (throttleOf ks)). nra.
Qed.

Lemma step_speed (delta : R) (s : State) :
  speed (fst (step delta s)) <= (speed s + 80 * Rabs delta) * friction.
Proof.
  pose proof (speed_nonneg s). pose proof (Rabs_pos delta).
  destruct (held (keys (ctl s)) "KeyR") eqn:Hreset.
  - rewrite reset_speed by exact Hreset. unfold friction. nra.
  - pose proof (throttled_speed delta s Hreset) as H1. cbv zeta in H1.
    eapply Rle_trans; [exact H1|].
    apply Rmult_le_compat_r; [unfold friction; lra|].
    destruct (JS.neqb (throttleOf (keys (ctl s))) 0).
    + set (k := throttleOf (keys (ctl s)) * accAmountOf (keys (ctl s)) * delta).
      replace (x (vel s) - sin (rotation (ctl s)) * throttleOf (keys (ctl s))
               * accAmountOf (keys (ctl s)) * delta)
        with (x (vel s) + x (mkVector3 (- sin (rotation (ctl s)) * k) 0
                                       (- cos (rotation (ctl s)) * k)))
        by (cbn [x]; subst k; ring).
      replace (z (vel s) - cos (rotation (ctl s)) * throttleOf (keys (ctl s))
               * accAmountOf (keys (ctl s)) * delta)
        with (z (vel s) + z (mkVector3 (- sin (rotation (ctl s)) * k) 0
                                       (- cos (rotation (ctl s)) * k)))
        by (cbn [z]; subst k; ring).
      replace (y (vel s))
        with (y (vel s) + y (mkVector3 (- sin (rotation (ctl s)) * k) 0
                                       (- cos (rotation (ctl s)) * k)))
        at 1 by (cbn [y]; ring).
      eapply Rle_trans; [apply norm_triangle|].
      rewrite norm_heading. unfold speed. subst k. rewrite Rabs_mult.
      pose proof (throttle_acc_bound (keys (ctl s))).
      pose proof (Rabs_pos (throttleOf (keys (ctl s)) * accAmountOf (keys (ctl s)))).
      nra.
    + rewrite norm_eta. unfold speed. lra.
Qed.

(** The top speed at frame times of at most [d]. *)
Lemma top_speed_step (d delta : R) (s : State) :
  0 <= delta <= d ->
  speed s <= 7760 / 3 * d ->
  speed (fst (step delta s)) <= 7760 / 3 * d.
Proof.
  intros Hd Hs. pose proof (step_speed delta s) as H1.
  rewrite Rabs_right in H1 by lra. unfold friction in H1. lra.
Qed.

(** X7.  The vehicle has a top speed.  A frame leaves it at no more
    than 0.97 times the sum of its speed and 80 times the frame time.
    So from the start of the scene, whatever the keys, while no frame
    time is negative or above [d] the speed stays at most
    [7760 / 3 * d]: at 60 frames a second, below 43.2. *)
Theorem vehicle_top_speed (d : R) (events : list Event)
  (Hd : 0 <= d)
  (Hframes : Forall (fun e => match e with
                              | Frame delta => 0 <= delta <= d
                              | _ => True
                              end) events) :
  (forall delta s,
     speed (fst (step delta s)) <= (speed s + 80 * Rabs delta) * friction)
  /\ speed (car (run events start)) <= 7760 / 3 * d
  /\ (d = 1 / 60 -> speed (car (run events start)) < 43.2).
Proof.
  split; [exact step_speed|].
  assert (H : speed (car (run events start)) <= 7760 / 3 * d).
  { assert (H0 : speed (car start) <= 7760 / 3 * d).
    { unfold start, init, speed. cbn [car vel]. rewrite norm_zero. lra. }
    unfold run. generalize dependent start.
    induction events as [|e events IH]; intros w Hw; [exact Hw|].
    cbn [fold_left]. inversion Hframes as [|e' es He Hes]; subst.
    apply IH; [exact Hes|].
    destruct e as [code fresh|code|delta]; try exact Hw.
    cbn [handle]. unfold Drive.frame.
    pose proof (top_speed_step d delta (car w) He Hw) as Hs.
    destruct (Car.step delta (car w)) as [s' [currentSpeed|]];
      [destruct (Sound.updateEngine (sound w) currentSpeed)|];
      exact Hs. }
  split; [exact H|]. intros ->. lra.
Qed.

Lemma vehicle_top_speed_witness :
  speed (car (run [KeyDown "KeyW" Sound.Running; Frame (1 / 60);
                   KeyDown "ShiftLeft" Sound.Running; Frame (1 / 60)] start))
  < 43.2.
Proof.
  refine (proj2 (proj2 (vehicle_top_speed (1 / 60)
                          [KeyDown "KeyW" Sound.Running; Frame (1 / 60);
                           KeyDown "ShiftLeft" Sound.Running; Frame (1 / 60)]
                          _ _))
                eq_refl).
  - lra.
  - repeat constructor; lra.
Defined.

End Speed.

(** ** The engine sound and the wheels *)

Section EngineSound.
Import Three Car Drive Sound.

Lemma run_snoc (events : list Event) (e : Event) (w : World) :
  run (events ++ [e]) w = handle (run events w) e.
Proof. unfold run. now rewrite fold_left_app. Qed.

(** The speed a frame hands to the engine sound is the speed it leaves
    the vehicle with. *)
Lemma heard_speed (delta : R) (s : State) :
  held (keys (ctl s)) "KeyR" = false ->
  snd (step delta s) = Some (speed (fst (step delta s))).
Proof.
  intros Hreset. destruct s as [p v c]. cbn [ctl] in Hreset.
  unfold speed, Car.step, Car.frame, applyThrottle, integrate, boundsCheck.
  cbn [ctl]. rewrite Hreset. cbv zeta.
  destruct (JS.neqb (throttleOf (keys c)) 0); run_store.
  all: split_if_gtb Hbx; run_store.
  all: split_if_gtb Hbz; run_store.
  all: reflexivity.
Qed.

Lemma reset_silent (delta : R) (s : State) :
  held (keys (ctl s)) "KeyR" = true -> snd (step delta s) = None.
Proof.
  intros Hreset. unfold Car.step, Car.frame. rewrite Hreset. run_store.
  reflexivity.
Qed.

(** X8.  The audio context is created by the first key press and never
    again: after any keys and frames from the start of the scene one
    context exists if a key has been pressed and none otherwise, and
    until a key is pressed no frame sets an engine target. *)
Theorem audio_starts_with_first_key (events : list Event) :
  let w := run events start in
  let pressed :=
    existsb (fun e => match e with KeyDown _ _ => true | _ => false end)
            events in
  created (sound w) = (if pressed then 1 else 0)%nat
  /\ isInit (sound w) = pressed
  /\ (ctx (sound w) = None <-> pressed = false)
  /\ (pressed = false -> engine w = None).
Proof.
  cbv zeta. induction events as [|e events IH] using rev_ind.
  - cbn. repeat split; reflexivity.
  - rewrite run_snoc, existsb_app. cbn [existsb].
    destruct IH as (Hc & Hi & Hx & He).
    set (w := run events start) in *.
    destruct e as [code fresh|code|delta].
    + rewrite orb_true_r. cbn [handle sound engine]. unfold init.
      rewrite Hi.
      destruct (existsb _ events).
      * repeat split; try assumption; try discriminate.
        intros Hn. now apply Hx in Hn.
      * cbn [created isInit ctx]. rewrite Hc.
        repeat split; try discriminate.
    + rewrite !orb_false_r. cbn [handle sound engine].
      repeat split; try assumption; apply Hx.
    + rewrite !orb_false_r. cbn [handle]. unfold Drive.frame.
      destruct (Car.step delta (car w)) as [s' [currentSpeed|]];
        [|cbn [sound engine]; repeat split; try assumption; apply Hx].
      unfold updateEngine.
      destruct (ctx (sound w)) as [st|] eqn:Hctx; cbn [sound engine].
      * cbn [created isInit ctx].
        repeat split; try assumption; try discriminate;
          intros Hp; apply Hx in Hp; discriminate.
      * rewrite ?Hctx. repeat split; try assumption; try apply Hx;
          try (intros Hp; rewrite He by exact Hp; reflexivity).
Qed.

(** X9.  Once the audio context exists, a frame without reset sets the
    engine targets from the speed [v] the frame leaves the vehicle with:
    the pitch is 60 + 5 v, at least 60; the gain is 0 up to speed 0.1
    and above it min (0.1 + 0.01 v) 0.3, between 0.1 and 0.3; a
    suspended context is resumed.  A frame with the reset key held stops
    the vehicle and leaves the targets as they were. *)
Theorem engine_sound_follows_speed (delta : R) (w : World) (st : ContextState)
  (Hctx : ctx (sound w) = Some st) :
  let w' := handle w (Frame delta) in
  let v := speed (car w') in
  if held (keys (ctl (car w))) "KeyR"
  then engine w' = engine w /\ sound w' = sound w /\ v = 0
  else
    exists u,
      engine w' = Some u
      /\ frequencyTarget u = 60 + v * 5 /\ 60 <= frequencyTarget u
      /\ (v <= 0.1 -> gainTarget u = 0)
      /\ (0.1 < v -> gainTarget u = Rmin (0.1 + v * 0.01) 0.3
                     /\ 0.1 < gainTarget u <= 0.3)
      /\ ctx (sound w') = Some Running.
Proof.
  cbv zeta. cbn [handle]. unfold Drive.frame.
  destruct (held (keys (ctl (car w))) "KeyR") eqn:Hreset.
  - pose proof (reset_silent delta (car w) Hreset) as Hs.
    pose proof (reset_speed delta (car w) Hreset) as Hv.
    destruct (Car.step delta (car w)) as [s' heard]. cbn [fst snd] in *.
    subst heard. cbn [engine sound car]. repeat split. exact Hv.
  - pose proof (heard_speed delta (car w) Hreset) as Hs.
    destruct (Car.step delta (car w)) as [s' heard]. cbn [fst snd] in *.
    subst heard. unfold updateEngine. rewrite Hctx. cbn [engine sound car].
    pose proof (speed_nonneg s') as Hv.
    eexists. split; [reflexivity|]. cbn [frequencyTarget gainTarget ctx].
    split; [reflexivity|]. split; [lra|]. split; [|split].
    + intros Hle. apply gtb_false in Hle. now rewrite Hle.
    + intros Hgt. pose proof Hgt as Hg. apply gtb_true in Hg. rewrite Hg.
      split; [reflexivity|].
      unfold Rmin. destruct (Rle_dec (0.1 + speed s' * 0.01) 0.3); lra.
    + reflexivity.
Qed.

Lemma engine_sound_follows_speed_witness :
  let w := mkWorld (mkState (mkVector3 0 0.5 0) (mkVector3 3 0 4)
                            (mkController false 0 (<["KeyR" := true]> ∅)))
                   (mkSoundManager (Some Suspended) true 1)
                   (Some (mkEngineUpdate 85 0.15)) in
  engine (handle w (Frame (1 / 60))) = Some (mkEngineUpdate 85 0.15)
  /\ sound (handle w (Frame (1 / 60))) = mkSoundManager (Some Suspended) true 1
  /\ speed (car (handle w (Frame (1 / 60)))) = 0.
Proof.
  cbv zeta.
  exact (engine_sound_follows_speed (1 / 60)
           (mkWorld (mkState (mkVector3 0 0.5 0) (mkVector3 3 0 4)
                             (mkController false 0 (<["KeyR" := true]> ∅)))
                    (mkSoundManager (Some Suspended) true 1)
                    (Some (mkEngineUpdate 85 0.15)))
           Suspended eq_refl).
Defined.

(** X10.  The wheels turn with the speed along the heading, not with
    the speed: moving at [k] along the forward vector of the heading
    they turn by [2.5 k delta] in a frame, backwards for a negative [k];
    sliding sideways they do not turn; and in no frame do they turn by
    more than 2.5 times the distance covered. *)
Theorem wheels_turn_with_forward_speed (vel : Vector3) (r k delta : R) :
  CarView.wheelRot (mkVector3 (k * - sin r) 0 (k * - cos r)) r delta
  = k * delta * 2.5
  /\ CarView.wheelRot (mkVector3 (k * cos r) 0 (k * - sin r)) r delta = 0
  /\ Rabs (CarView.wheelRot vel r delta) <= 2.5 * (norm vel * Rabs delta).
Proof.
  unfold CarView.wheelRot. cbv zeta. split; [|split].
  - unfold dot. cbn [x y z].
    replace (k * - sin r * - sin r + 0 * 0 + k * - cos r * - cos r)
      with (k * ((sin r)² + (cos r)²)) by (unfold Rsqr; ring).
    rewrite sin2_cos2. ring.
  - unfold dot. cbn [x y z]. ring.
  - set (fwd := mkVector3 (- sin r) 0 (- cos r)).
    assert (Hf : norm fwd = 1).
    { subst fwd. replace (- sin r) with (- sin r * 1) by ring.
      replace (- cos r) with (- cos r * 1) by ring.
      rewrite norm_heading. apply Rabs_right. lra. }
    assert (Hd : Rabs (dot vel fwd) <= norm vel).
    { apply Rabs_le. split.
      - pose proof (dot_le_norms vel (mkVector3 (- x fwd) (- y fwd) (- z fwd)))
          as H1.
        assert (Hn : norm (mkVector3 (- x fwd) (- y fwd) (- z fwd)) = 1).
        { rewrite <- Hf. unfold norm. cbn [x y z]. f_equal. ring. }
        rewrite Hn in H1. unfold dot in *. cbn [x y z] in *. lra.
      - pose proof (dot_le_norms vel fwd) as H1. rewrite Hf in H1. lra. }
    rewrite !Rabs_mult, (Rabs_right 2.5) by lra.
    pose proof (Rabs_pos delta). pose proof (Rabs_pos (dot vel fwd)). nra.
Qed.

End EngineSound.

(** ** Crates hit by the vehicle *)

Section CrateImpact.
Import Three Crates.

(** The impact sound of one crate in one frame. *)
Lemma step_sound carPos carVel delta c :
  snd (step carPos carVel delta c)
  = if match mesh c with Some _ => true | None => false end
       && hits carPos carVel delta c
       && JS.gtb (norm carVel * 1.5) 5
    then Some (norm carVel * 1.5 / 20) else None.
Proof.
  destruct (mesh c) as [m|] eqn:Hmesh;
    [|now rewrite unmounted_step by exact Hmesh].
  cbn [andb]. destruct c as [p v r ms]. cbn [mesh] in Hmesh. subst ms.
  unfold hits, moved, gravity, move. run_store.
  crate_run. split_if_gtb Hy; run_store.
  all: match goal with
       | |- context [JS.ltb ?a ?b] => destruct (JS.ltb a b) eqn:Hhit
       end; cbn [andb].
  all: unfold collide; run_store.
  all: try reflexivity.
  all: destruct (JS.gtb _ 5); reflexivity.
Qed.

(** X11.  A crate makes an impact sound in a frame exactly when its mesh
    is mounted, the frame finds it within reach of the vehicle, and the
    vehicle is faster than 10/3; the strength is 3/40 of the speed of the
    vehicle.  So a frame plays no impact sound while the vehicle is no
    faster than 10/3, whatever the crates, and never more sounds than
    there are crates. *)
Theorem impact_sound_needs_speed
  (carPos carVel : Vector3) (delta : R) (crates : list State) :
  (forall c strength,
     snd (step carPos carVel delta c) = Some strength
     <-> (mesh c <> None /\ hits carPos carVel delta c = true
          /\ 10 / 3 < norm carVel /\ strength = norm carVel * 3 / 40))
  /\ (norm carVel <= 10 / 3 -> snd (frame carPos carVel delta crates) = [])
  /\ (List.length (snd (frame carPos carVel delta crates))
      <= List.length crates)%nat.
Proof.
  split; [|split].
  - intros c strength. rewrite step_sound. split.
    + destruct (mesh c); cbn [andb]; [|discriminate].
      destruct (hits carPos carVel delta c); cbn [andb]; [|discriminate].
      destruct (JS.gtb (norm carVel * 1.5) 5) eqn:Hg; [|discriminate].
      apply gtb_true in Hg. intros [= <-].
      repeat split; try discriminate; lra.
    + intros (Hm & Hh & Hv & ->). rewrite Hh.
      destruct (mesh c); [|contradiction]. cbn [andb].
      replace (JS.gtb (norm carVel * 1.5) 5) with true
        by (symmetry; apply gtb_true; lra).
      f_equal. lra.
  - intros Hslow. unfold frame. cbn [snd].
    induction crates as [|c crates IH]; [reflexivity|].
    cbn [omap list_omap]. rewrite step_sound.
    replace (JS.gtb (norm carVel * 1.5) 5) with false
      by (symmetry; apply gtb_false; lra).
    rewrite andb_false_r. exact IH.
  - unfold frame. cbn [snd].
    induction crates as [|c crates IH]; [cbn; lia|].
    cbn [omap list_omap].
    destruct (snd (step carPos carVel delta c)); cbn [List.length]; lia.
Qed.

Lemma impact_sound_needs_speed_witness :
  snd (frame (mkVector3 0 0.5 0) (mkVector3 2 0 1) (1 / 60) wall) = [].
Proof.
  refine (proj1 (proj2 (impact_sound_needs_speed (mkVector3 0 0.5 0)
                          (mkVector3 2 0 1) (1 / 60) wall)) _).
  unfold norm. cbn [x y z].
  apply sqrt_le_of_sq; lra.
Defined.

End CrateImpact.

Section CratePop.
Import Three Crates.

(** A frame that finds a crate on the ground within reach of the
    vehicle. *)
Lemma hit_rest_step carPos carVel delta c m :
  mesh c = Some m ->
  y (pos c) <= 0.5 ->
  hits carPos carVel delta c = true ->
  let p1 := rested delta c in
  let d := mkVector3 (x p1 - x carPos) (y p1 - y carPos) (z p1 - z carPos) in
  let l := JS.or_else (norm d) 1 in
  let impactForce := norm carVel * 1.5 in
  let force := mkVector3 (x d * (1 / l) * impactForce)
                         (Rmin (impactForce * 0.5) 10)
                         (z d * (1 / l) * impactForce) in
  let overlap := 2.0 + 0.8 - dist p1 carPos in
  pos (fst (step carPos carVel delta c))
  = mkVector3 (x p1 + x force * overlap) (y p1 + y force * overlap)
              (z p1 + z force * overlap)
  /\ vel (fst (step carPos carVel delta c))
     = mkVector3 (x (vel c) * 0.90 + x force) (0 * 0.90 + y force)
                 (z (vel c) * 0.90 + z force).
Proof.
  intros Hmesh Hy Hhit. rewrite hits_rest in Hhit by exact Hy.
  apply gtb_false in Hy. destruct c as [p v r ms]. cbn [mesh pos] in *.
  subst ms. unfold rested in *. run_store_in Hhit.
  cbv zeta. crate_run. rewrite Hy. run_store. rewrite Hhit.
  unfold collide. run_store. unfold norm. cbn [x y z].
  split; reflexivity.
Qed.

Lemma unit_or_zero d :
  let l := JS.or_else (norm d) 1 in
  (x d * (1 / l)) * (x d * (1 / l)) + (z d * (1 / l)) * (z d * (1 / l)) <= 1.
Proof.
  cbv zeta. unfold JS.or_else.
  pose proof (norm_sq d) as Hsq. pose proof (norm_nonneg d) as Hn.
  pose proof (sq_ge0 (x d)). pose proof (sq_ge0 (y d)).
  pose proof (sq_ge0 (z d)).
  destruct (JS.neqb (norm d) 0) eqn:Hz.
  - apply JS.neqb_true in Hz.
    assert (Hpos : 0 < norm d * norm d) by nra.
    replace (x d * (1 / norm d) * (x d * (1 / norm d))
             + z d * (1 / norm d) * (z d * (1 / norm d)))
      with ((x d * x d + z d * z d) / (norm d * norm d))
      by (field; exact Hz).
    apply Rmult_le_reg_r with (norm d * norm d); [exact Hpos|].
    unfold Rdiv. rewrite Rmult_assoc, Rinv_l by lra. lra.
  - apply JS.neqb_false in Hz. rewrite Hz in Hsq.
    assert (x d * x d = 0) by lra. assert (z d * z d = 0) by lra.
    nra.
Qed.

(** X12.  A crate on the ground that a frame finds within reach of the
    vehicle is thrown up: its vertical velocity after the frame is 0.75
    times the speed of the vehicle, capped at 10, never downwards; it
    ends the frame at or above the resting height; and the horizontal
    velocity it gains, on top of the 0.9 that ground friction leaves, is
    no larger than the impact force, 1.5 times the speed of the
    vehicle. *)
Theorem crate_pops_up_when_hit
  (carPos carVel : Vector3) (delta : R) (c : State) (m : Shown)
  (Hmesh : mesh c = Some m)
  (Hy : y (pos c) <= 0.5)
  (Hhit : hits carPos carVel delta c = true) :
  let c' := fst (step carPos carVel delta c) in
  let pop := Rmin (norm carVel * 0.75) 10 in
  let gx := x (vel c') - x (vel c) * 0.9 in
  let gz := z (vel c') - z (vel c) * 0.9 in
  y (vel c') = pop /\ 0 <= pop <= 10
  /\ 0.5 <= y (pos c')
  /\ sqrt (gx * gx + gz * gz) <= norm carVel * 1.5.
Proof.
  cbv zeta.
  destruct (hit_rest_step carPos carVel delta c m Hmesh Hy Hhit) as [Hp Hv].
  cbv zeta in Hp, Hv. rewrite Hp, Hv. clear Hp Hv. cbn [x y z].
  pose proof (norm_nonneg carVel) as Hn.
  assert (Hpop : Rmin (norm carVel * 1.5 * 0.5) 10 = Rmin (norm carVel * 0.75) 10)
    by (f_equal; lra).
  assert (Hrange : 0 <= Rmin (norm carVel * 0.75) 10 <= 10).
  { unfold Rmin. destruct (Rle_dec (norm carVel * 0.75) 10); lra. }
  rewrite Hpop. split; [lra|]. split; [exact Hrange|]. split.
  - rewrite hits_rest in Hhit by exact Hy. apply JS.ltb_true in Hhit.
    unfold rested at 1. cbn [y]. nra.
  - set (d := mkVector3 (x (rested delta c) - x carPos)
                        (y (rested delta c) - y carPos)
                        (z (rested delta c) - z carPos)).
    pose proof (unit_or_zero d) as Hu. cbv zeta in Hu.
    set (l := JS.or_else (norm d) 1) in *.
    apply sqrt_le_of_sq; [lra|].
    cbn [x z] in Hu.
    set (u := (x (rested delta c) - x carPos) * (1 / l)) in *.
    set (w := (z (rested delta c) - z carPos) * (1 / l)) in *.
    set (F := norm carVel * 1.5) in *.
    assert (HF : 0 <= F * F) by (subst F; nra).
    replace (x (vel c) * 0.90 + u * F - x (vel c) * 0.9) with (u * F) by lra.
    replace (z (vel c) * 0.90 + w * F - z (vel c) * 0.9) with (w * F) by lra.
    replace (u * F * (u * F) + w * F * (w * F))
      with ((u * u + w * w) * (F * F)) by ring.
    apply Rle_trans with (1 * (F * F));
      [apply Rmult_le_compat_r; [exact HF | exact Hu] | lra].
Qed.

Lemma crate_pops_up_when_hit_witness :
  let c := mkState (mkVector3 1 0.5 0) (mkVector3 0 0 0) (mkVector3 0 0 0)
                   (Some (mkShown (mkVector3 1 0.5 0) (mkVector3 0 0 0))) in
  y (vel (fst (step (mkVector3 0 0.5 0) (mkVector3 3 0 4) (1 / 60) c)))
  = Rmin (norm (mkVector3 3 0 4) * 0.75) 10.
Proof.
  cbv zeta.
  refine (proj1 (crate_pops_up_when_hit (mkVector3 0 0.5 0) (mkVector3 3 0 4)
                   (1 / 60)
                   (mkState (mkVector3 1 0.5 0) (mkVector3 0 0 0)
                      (mkVector3 0 0 0)
                      (Some (mkShown (mkVector3 1 0.5 0) (mkVector3 0 0 0))))
                   (mkShown (mkVector3 1 0.5 0) (mkVector3 0 0 0))
                   eq_refl _ _)).
  - cbn. lra.
  - rewrite hits_rest by (cbn; lra). apply JS.ltb_true.
    apply dist_lt; [lra|]. unfold distSq, rested. cbn. lra.
Defined.

End CratePop.

(** ** Crates left alone *)

Section CrateAlone.
Import Three Crates CrateRun.

Lemma run_app (fs gs : list Frame) : forall c,
  run (fs ++ gs) c = run gs (run fs c).
Proof. induction fs as [|f fs IH]; intros c; simpl; [reflexivity|apply IH]. Qed.

Lemma alone_app (fs gs : list Frame) : forall c,
  alone (fs ++ gs) c -> alone fs c /\ alone gs (run fs c).
Proof.
  induction fs as [|f fs IH]; intros c H; simpl in *; [now split|].
  destruct H as [Hh H]. destruct (IH _ H). now repeat split.
Qed.

Lemma drive_snoc vehicle d m n :
  drive vehicle d m (S n)
  = drive vehicle d m n
    ++ [mkFrame (fst (vehicle (m + n)%nat)) (snd (vehicle (m + n)%nat)) d].
Proof. unfold drive. now rewrite seq_S, map_app. Qed.

Lemma drive_app vehicle d n k :
  drive vehicle d 0 (n + k) = drive vehicle d 0 n ++ drive vehicle d n k.
Proof. unfold drive. now rewrite seq_app, map_app. Qed.

Lemma step_mesh carPos carVel delta c :
  mesh c <> None -> mesh (fst (step carPos carVel delta c)) <> None.
Proof.
  intros Hm. unfold step.
  destruct (crateStep _ _ _ _ _ _) as [sound h]. cbn [fst mesh].
  destruct (mesh c); [discriminate|contradiction].
Qed.

Lemma run_mesh (frames : list Frame) : forall c,
  mesh c <> None -> mesh (run frames c) <> None.
Proof.
  induction frames as [|f fs IH]; intros c Hm; [exact Hm|].
  cbn [run]. apply IH. now apply step_mesh.
Qed.

(** Frames on the ground, the vehicle anywhere out of reach. *)
Lemma slide_vel (frames : list Frame) : forall c,
  mesh c <> None -> y (pos c) <= 0.5 -> alone frames c ->
  x (vel (run frames c)) = x (vel c) * 0.9 ^ List.length frames
  /\ z (vel (run frames c)) = z (vel c) * 0.9 ^ List.length frames.
Proof.
  induction frames as [|f frames IH]; intros c Hmesh Hy Hfree.
  - cbn. split; lra.
  - cbn [run alone List.length pow] in *. destruct Hfree as [Hhit Hfree].
    destruct (mesh c) as [m|] eqn:Hm; [|contradiction].
    pose proof (rest_step (carPos f) (carVel f) (delta f) c m Hm Hy Hhit) as Hs.
    cbv zeta in Hs. rewrite Hs in *. cbn [fst] in *.
    lazymatch type of Hfree with
    | alone _ ?c1 =>
        destruct (IH c1) as (Hvx & Hvz);
          [cbn [mesh]; discriminate | cbn [pos rested y]; lra | exact Hfree |]
    end.
    rewrite Hvx, Hvz. cbn [vel x z].
    replace 0.90 with (9 / 10) by lra. replace 0.9 with (9 / 10) by lra.
    split; field.
Qed.

Lemma slide_pos (d : R) (frames : list Frame) : forall c,
  mesh c <> None -> y (pos c) <= 0.5 -> alone frames c ->
  Forall (fun f => delta f = d) frames ->
  x (pos (run frames c))
  = x (pos c) + x (vel c) * d * 9 * (1 - 0.9 ^ List.length frames)
  /\ z (pos (run frames c))
     = z (pos c) + z (vel c) * d * 9 * (1 - 0.9 ^ List.length frames).
Proof.
  induction frames as [|f frames IH]; intros c Hmesh Hy Hfree Hd.
  - cbn. split; lra.
  - cbn [run alone List.length pow] in *. destruct Hfree as [Hhit Hfree].
    inversion Hd as [|f' fs' Hf Hfs]; subst f' fs'.
    destruct (mesh c) as [m|] eqn:Hm; [|contradiction].
    pose proof (rest_step (carPos f) (carVel f) (delta f) c m Hm Hy Hhit) as Hs.
    cbv zeta in Hs. rewrite Hs in *. cbn [fst] in *.
    lazymatch type of Hfree with
    | alone _ ?c1 =>
        destruct (IH c1) as (Hpx & Hpz);
          [cbn [mesh]; discriminate | cbn [pos rested y]; lra | exact Hfree
          | exact Hfs |]
    end.
    rewrite Hpx, Hpz, Hf. cbn [pos vel rested x z].
    replace 0.90 with (9 / 10) by lra. replace 0.9 with (9 / 10) by lra.
    split; field.
Qed.

(** X13.  A crate on the ground that no frame finds within reach of the
    vehicle slides to a stop, wherever the vehicle is and however it
    moves from frame to frame: each frame leaves the crate 0.9 of its
    horizontal velocity, whatever the frame time, and over n frames of
    one time [d] it moves by its velocity times [9 d (1 - 0.9^n)], never
    more than 9 frames' worth of its first velocity. *)
Theorem crate_slides_to_a_stop (frames : list Frame) (c : State)
  (Hmesh : mesh c <> None)
  (Hy : y (pos c) <= 0.5)
  (Hfree : alone frames c) :
  let c' := run frames c in
  let n := List.length frames in
  x (vel c') = x (vel c) * 0.9 ^ n
  /\ z (vel c') = z (vel c) * 0.9 ^ n
  /\ forall d, Forall (fun f => delta f = d) frames ->
       x (pos c') = x (pos c) + x (vel c) * d * 9 * (1 - 0.9 ^ n)
       /\ z (pos c') = z (pos c) + z (vel c) * d * 9 * (1 - 0.9 ^ n)
       /\ Rabs (x (pos c') - x (pos c)) <= 9 * Rabs (x (vel c) * d)
       /\ Rabs (z (pos c') - z (pos c)) <= 9 * Rabs (z (vel c) * d).
Proof.
  cbv zeta.
  destruct (slide_vel frames c Hmesh Hy Hfree) as (Hvx & Hvz).
  split; [exact Hvx|]. split; [exact Hvz|]. intros d Hd.
  destruct (slide_pos d frames c Hmesh Hy Hfree Hd) as (Hpx & Hpz).
  split; [exact Hpx|]. split; [exact Hpz|].
  set (n := List.length frames) in *.
  assert (Hpow : 0 <= 1 - 0.9 ^ n <= 1).
  { assert (0 <= 0.9 ^ n) by (apply pow_le; lra).
    assert (0.9 ^ n <= 1) by (rewrite <- (pow1 n); apply pow_incr; lra).
    lra. }
  rewrite Hpx, Hpz. split.
  - replace (x (pos c) + x (vel c) * d * 9 * (1 - 0.9 ^ n) - x (pos c))
      with (x (vel c) * d * (9 * (1 - 0.9 ^ n))) by ring.
    rewrite Rabs_mult, (Rabs_right (9 * (1 - 0.9 ^ n))) by lra.
    pose proof (Rabs_pos (x (vel c) * d)). nra.
  - replace (z (pos c) + z (vel c) * d * 9 * (1 - 0.9 ^ n) - z (pos c))
      with (z (vel c) * d * (9 * (1 - 0.9 ^ n))) by ring.
    rewrite Rabs_mult, (Rabs_right (9 * (1 - 0.9 ^ n))) by lra.
    pose proof (Rabs_pos (z (vel c) * d)). nra.
Qed.

(** A crate that neither moves along [z] nor is, in any frame, within
    2.8 along [z] of the vehicle as it is in that frame, is out of its
    reach in every frame. *)
Lemma far_alone (frames : list Frame) : forall c,
  mesh c <> None -> z (vel c) = 0 ->
  Forall (fun f => 2.8 <= Rabs (z (pos c) - z (carPos f))) frames ->
  alone frames c.
Proof.
  induction frames as [|f frames IH]; intros c Hmesh Hvz Hfar; [exact I|].
  inversion Hfar as [|f' fs' Hf Hfs]; subst f' fs'.
  cbn [alone].
  destruct (mesh c) as [m|] eqn:Hm; [|contradiction].
  destruct (Rle_dec (y (pos c)) 0.5) as [Hle|Hgt].
  - assert (Hhit : hits (carPos f) (carVel f) (delta f) c = false).
    { rewrite hits_rest by exact Hle. apply out_of_reach.
      unfold rested. cbn [z]. rewrite Hvz.
      replace (z (pos c) + 0 * 0.90 * delta f - z (carPos f))
        with (z (pos c) - z (carPos f)) by lra.
      exact Hf. }
    split; [exact Hhit|].
    rewrite (rest_step (carPos f) (carVel f) (delta f) c m Hm Hle Hhit).
    cbn [fst].
    apply IH; cbn [mesh vel pos rested z]; [discriminate | lra |].
    rewrite Hvz.
    replace (z (pos c) + 0 * 0.90 * delta f) with (z (pos c)) by lra.
    exact Hfs.
  - assert (Hy : 0.5 < y (pos c)) by lra.
    assert (Hhit : hits (carPos f) (carVel f) (delta f) c = false).
    { rewrite hits_fall by exact Hy. apply out_of_reach.
      unfold fallen. cbn [z]. rewrite Hvz.
      replace (z (pos c) + 0 * delta f - z (carPos f))
        with (z (pos c) - z (carPos f)) by lra.
      exact Hf. }
    split; [exact Hhit|].
    rewrite (fall_step (carPos f) (carVel f) (delta f) c m Hm Hy Hhit).
    cbn [fst].
    apply IH; cbn [mesh vel pos fallen z]; [discriminate | exact Hvz |].
    rewrite Hvz.
    replace (z (pos c) + 0 * delta f) with (z (pos c)) by lra.
    exact Hfs.
Qed.

(** The vehicle driving east along the road, past a crate that slides
    along the wall. *)
Lemma crate_slides_to_a_stop_witness :
  let c := mkState (mkVector3 (-20) 0.5 15) (mkVector3 3 0 0) (mkVector3 0 0 0)
                   (Some (mkShown (mkVector3 (-20) 0.5 15) (mkVector3 0 0 0))) in
  let frames := [ mkFrame (mkVector3 (-21) 0.5 0) (mkVector3 60 0 0) (1 / 60);
                  mkFrame (mkVector3 (-20) 0.5 0) (mkVector3 58 0 0) (1 / 30) ] in
  x (vel (run frames c)) = 3 * 0.9 ^ 2.
Proof.
  cbv zeta.
  refine (proj1 (crate_slides_to_a_stop
                   [ mkFrame (mkVector3 (-21) 0.5 0) (mkVector3 60 0 0) (1 / 60);
                     mkFrame (mkVector3 (-20) 0.5 0) (mkVector3 58 0 0) (1 / 30) ]
                   (mkState (mkVector3 (-20) 0.5 15) (mkVector3 3 0 0)
                      (mkVector3 0 0 0)
                      (Some (mkShown (mkVector3 (-20) 0.5 15)
                                     (mkVector3 0 0 0))))
                   _ _ _)).
  - discriminate.
  - cbn. lra.
  - apply far_alone; [discriminate | reflexivity |].
    repeat apply List.Forall_cons; try apply List.Forall_nil;
      cbn; rewrite Rabs_right; lra.
Defined.

Lemma nat_above (r : R) : exists n : nat, r <= INR n.
Proof.
  destruct (archimed r) as [Hup _].
  destruct (Z_lt_le_dec 0 (up r)) as [Hpos|Hneg].
  - exists (Z.to_nat (up r)).
    rewrite INR_IZR_INZ, Z2Nat.id by lia. lra.
  - exists 0%nat. apply IZR_le in Hneg. cbn. lra.
Qed.

(** Free fall in frames of the same length, until the first frame that
    starts at or below the resting height. *)
Lemma fall_closed vehicle d c
  (Hmesh : mesh c <> None)
  (Hfree : forall n, alone (drive vehicle d 0 n) c) :
  forall n,
    (exists k, (k <= n)%nat
               /\ y (pos (run (drive vehicle d 0 k) c)) <= 0.5)
    \/ (y (pos (run (drive vehicle d 0 n) c))
        = y (pos c) + INR n * d * y (vel c) - 10 * d * d * INR n * (INR n + 1)
        /\ y (vel (run (drive vehicle d 0 n) c)) = y (vel c) - 20 * d * INR n).
Proof.
  induction n as [|n IH].
  - right. cbn. split; lra.
  - destruct IH as [(k & Hk & Hy)|[Hy Hv]].
    { left. exists k. split; [lia|exact Hy]. }
    set (cn := run (drive vehicle d 0 n) c) in *.
    destruct (Rle_dec (y (pos cn)) 0.5) as [Hle|Hgt].
    { left. exists n. split; [lia|exact Hle]. }
    right. rewrite drive_snoc, run_app. fold cn. cbn [run carPos carVel delta].
    pose proof (Hfree (S n)) as Hun.
    rewrite drive_snoc in Hun. apply alone_app in Hun.
    destruct Hun as [_ Hun]. fold cn in Hun.
    cbn [alone carPos carVel delta] in Hun. destruct Hun as [Hhit _].
    pose proof (run_mesh (drive vehicle d 0 n) c Hmesh) as Hm.
    fold cn in Hm. destruct (mesh cn) as [m|] eqn:Hmn; [|contradiction].
    rewrite (fall_step _ _ d cn m Hmn) by (lra || exact Hhit).
    cbn [fst pos vel fallen y]. rewrite Hy, Hv, S_INR. split; ring.
Qed.

(** Frames at rest on the ground, the vehicle anywhere out of reach. *)
Lemma rest_frames (frames : list Frame) : forall c,
  mesh c <> None -> y (pos c) = 0.5 -> y (vel c) = 0 ->
  alone frames c ->
  y (pos (run frames c)) = 0.5 /\ y (vel (run frames c)) = 0.
Proof.
  induction frames as [|f frames IH]; intros c Hmesh Hy Hvy Hfree.
  - now split.
  - cbn [run alone] in *. destruct Hfree as [Hhit Hfree].
    destruct (mesh c) as [m|] eqn:Hm; [|contradiction].
    rewrite (rest_step (carPos f) (carVel f) (delta f) c m Hm) in *
      by (exact Hhit || lra).
    cbn [fst] in *. apply IH; cbn [mesh pos vel rested y]; try easy; lra.
Qed.

(** X14.  A crate in the air lands, wherever the vehicle is and however
    it moves from frame to frame.  With frames of one positive length,
    none of which finds the crate within reach of the vehicle, some
    frame starts with the crate at or below the resting height, whatever
    its height and its velocity at first; every frame after that one
    leaves it at the resting height 0.5 with no vertical velocity. *)
Theorem falling_crate_lands
  (vehicle : nat -> Vector3 * Vector3) (d : R) (c : State)
  (Hmesh : mesh c <> None)
  (Hd : 0 < d)
  (Hfree : forall n, alone (drive vehicle d 0 n) c) :
  exists n,
    y (pos (run (drive vehicle d 0 n) c)) <= 0.5
    /\ forall k,
         y (pos (run (drive vehicle d 0 (S n + k)) c)) = 0.5
         /\ y (vel (run (drive vehicle d 0 (S n + k)) c)) = 0.
Proof.
  assert (Hland : exists n, y (pos (run (drive vehicle d 0 n) c)) <= 0.5).
  { destruct (nat_above ((Rabs (y (pos c) - 0.5) + d * Rabs (y (vel c)))
                         / (10 * d * d))) as [N HN].
    assert (Hd2 : 0 < 10 * d * d) by nra.
    apply (Rmult_le_compat_r (10 * d * d)) in HN; [|lra].
    unfold Rdiv in HN. rewrite Rmult_assoc, Rinv_l, Rmult_1_r in HN by lra.
    destruct (fall_closed vehicle d c Hmesh Hfree N)
      as [(k & _ & Hk)|[Hy _]]; [now exists k|].
    exists N. rewrite Hy.
    pose proof (pos_INR N) as HN0.
    pose proof (Rle_abs (y (pos c) - 0.5)) as Ha.
    pose proof (Rle_abs (y (vel c))) as Hb.
    pose proof (Rabs_pos (y (pos c) - 0.5)) as Ha0.
    pose proof (Rabs_pos (y (vel c))) as Hb0.
    assert (H0 : 0 <= INR N * d) by (apply Rmult_le_pos; lra).
    assert (H1 : INR N * d * y (vel c) <= INR N * d * Rabs (y (vel c)))
      by (apply Rmult_le_compat_l; assumption).
    assert (H2 : INR N * (Rabs (y (pos c) - 0.5) + d * Rabs (y (vel c)))
                 <= INR N * (INR N * (10 * d * d)))
      by (apply Rmult_le_compat_l; lra).
    assert (H3 : 0 <= INR N * Rabs (y (pos c) - 0.5))
      by (apply Rmult_le_pos; lra).
    assert (H4 : 0 <= d * Rabs (y (vel c)))
      by (apply Rmult_le_pos; lra).
    lra. }
  destruct Hland as [n Hn]. exists n. split; [exact Hn|]. intros k.
  replace (S n + k)%nat with (n + S k)%nat by lia.
  rewrite drive_app, run_app.
  pose proof (Hfree (n + S k)%nat) as Hun.
  rewrite drive_app in Hun. apply alone_app in Hun.
  destruct Hun as [_ Hun].
  pose proof (run_mesh (drive vehicle d 0 n) c Hmesh) as Hm.
  set (cn := run (drive vehicle d 0 n) c) in *.
  unfold drive in *. cbn [seq List.map run alone carPos carVel delta] in *.
  destruct Hun as [Hhit Hun].
  destruct (mesh cn) as [m|] eqn:Hmn; [|contradiction].
  rewrite (rest_step _ _ d cn m Hmn Hn Hhit) in *.
  cbn [fst] in *.
  apply rest_frames; cbn [mesh pos vel rested y]; try discriminate; try lra.
  exact Hun.
Qed.

(** The vehicle driving east along the road at 60, a unit every frame,
    and the top crate of the first column of the wall. *)
Lemma falling_crate_lands_witness :
  let vehicle := fun k : nat => (mkVector3 (INR k) 0.5 0, mkVector3 60 0 0) in
  exists n,
    y (pos (run (drive vehicle (1 / 60) 0 n) (wallCrate (-5) 2))) <= 0.5
    /\ forall k,
         y (pos (run (drive vehicle (1 / 60) 0 (S n + k)) (wallCrate (-5) 2)))
         = 0.5
         /\ y (vel (run (drive vehicle (1 / 60) 0 (S n + k))
                      (wallCrate (-5) 2))) = 0.
Proof.
  cbv zeta.
  apply (falling_crate_lands
           (fun k : nat => (mkVector3 (INR k) 0.5 0, mkVector3 60 0 0))
           (1 / 60) (wallCrate (-5) 2)).
  - discriminate.
  - lra.
  - intros n. apply far_alone.
    + discriminate.
    + reflexivity.
    + unfold drive. apply List.Forall_forall. intros f Hin.
      apply in_map_iff in Hin. destruct Hin as (k & <- & _).
      cbn. rewrite Rabs_right; lra.
Defined.

End CrateAlone.

Section ImpactSound.
Import Three Crates.

(** X23.  The sound of an impact.  Before the first key press there is
    no audio context and an impact plays nothing.  With a context, the
    impact of a crate starts at a frequency from 100 to 300 and falls to
    40, and starts at a gain of 3/80 of the speed of the vehicle, capped
    at 0.8 and always above 0.125, and falls to 0.01, over 0.3
    seconds. *)
Theorem impact_sound_shape
  (m : Sound.SoundManager) (carPos carVel : Vector3) (delta : R) (c : State)
  (strength random : R)
  (Hplayed : snd (step carPos carVel delta c) = Some strength)
  (Hrandom : 0 <= random < 1) :
  match Sound.playImpact m strength random with
  | None => Sound.ctx m = None
  | Some i =>
      Sound.ctx m <> None
      /\ 100 <= Sound.startFrequency i < 300
      /\ Sound.endFrequency i = 40
      /\ Sound.startGain i = Rmin (norm carVel * 3 / 80) 0.8
      /\ 0.125 < Sound.startGain i <= 0.8
      /\ Sound.endGain i = 0.01
      /\ Sound.duration i = 0.3
  end.
Proof.
  rewrite step_sound in Hplayed.
  destruct (_ && _ && JS.gtb (norm carVel * 1.5) 5) eqn:Hcond;
    [|discriminate].
  apply andb_true_iff in Hcond. destruct Hcond as [_ Hfast].
  apply gtb_true in Hfast. injection Hplayed as <-.
  unfold Sound.playImpact. destruct (Sound.ctx m); [|reflexivity].
  cbn [Sound.startFrequency Sound.endFrequency Sound.startGain Sound.endGain
       Sound.duration].
  assert (Hg : Rmin (norm carVel * 1.5 / 20 * 0.5) 0.8
               = Rmin (norm carVel * 3 / 80) 0.8) by (f_equal; lra).
  rewrite Hg. split; [discriminate|]. split; [lra|].
  repeat (split; [reflexivity|]). split; [|split; reflexivity].
  unfold Rmin. destruct (Rle_dec (norm carVel * 3 / 80) 0.8); lra.
Qed.

Lemma impact_sound_shape_witness :
  match Sound.playImpact (Sound.mkSoundManager (Some Sound.Running) true 1)
          (norm (mkVector3 3 0 4) * 1.5 / 20) (1 / 2) with
  | None => False
  | Some i => Sound.startGain i = Rmin (norm (mkVector3 3 0 4) * 3 / 80) 0.8
  end.
Proof.
  assert (Hn : norm (mkVector3 3 0 4) = 5).
  { unfold norm. cbn [x y z].
    replace (3 * 3 + 0 * 0 + 4 * 4) with (5 * 5) by lra.
    apply sqrt_square. lra. }
  assert (Hplayed :
            snd (step (mkVector3 0 0.5 0) (mkVector3 3 0 4) (1 / 60)
                   (mkState (mkVector3 1 0.5 0) (mkVector3 0 0 0)
                      (mkVector3 0 0 0)
                      (Some (mkShown (mkVector3 1 0.5 0) (mkVector3 0 0 0)))))
            = Some (norm (mkVector3 3 0 4) * 1.5 / 20)).
  { rewrite step_sound. cbn [mesh andb].
    rewrite hits_rest by (cbn; lra).
    replace (JS.ltb _ (2.0 + 0.8)) with true.
    - cbn [andb]. replace (JS.gtb _ 5) with true; [reflexivity|].
      symmetry. apply gtb_true. rewrite Hn. lra.
    - symmetry. apply JS.ltb_true. apply dist_lt; [lra|].
      unfold distSq, rested. cbn. lra. }
  assert (Hrandom : 0 <= 1 / 2 < 1) by lra.
  pose proof (impact_sound_shape
                (Sound.mkSoundManager (Some Sound.Running) true 1)
                (mkVector3 0 0.5 0) (mkVector3 3 0 4) (1 / 60)
                (mkState (mkVector3 1 0.5 0) (mkVector3 0 0 0)
                   (mkVector3 0 0 0)
                   (Some (mkShown (mkVector3 1 0.5 0) (mkVector3 0 0 0))))
                (norm (mkVector3 3 0 4) * 1.5 / 20) (1 / 2) Hplayed Hrandom)
    as H.
  cbn [Sound.playImpact Sound.ctx] in *. apply H.
Defined.

End ImpactSound.

(** ** The camera behind the vehicle *)

Section CameraRig.
Import Three CameraFollow.

Lemma camera_step (distance : R) (target camera : Vector3) :
  let d := desired distance target in
  step distance target camera
  = mkVector3 (x camera + (x d - x camera) * 0.1)
              (y camera + (y d - y camera) * 0.1)
              (z camera + (z d - z camera) * 0.1).
Proof.
  cbv zeta. unfold step, CameraFollow.frame, lerp, desired. run_store.
  f_equal; f_equal; f_equal; lra.
Qed.

(** X15.  With the vehicle standing where it is and the zoom unchanged,
    each frame takes the camera a tenth of the way to the place it aims
    at, the target raised and set back by 0.707 times the zoom distance:
    after n frames what separates it from that place is 0.9 to the power
    n of what it was, on each axis and in distance.  It never passes the
    place, and once there it stays. *)
Theorem camera_closes_on_its_place
  (distance : R) (target camera : Vector3) (n : nat) :
  let d := desired distance target in
  let c := steps n distance target camera in
  x c - x d = (x camera - x d) * 0.9 ^ n
  /\ y c - y d = (y camera - y d) * 0.9 ^ n
  /\ z c - z d = (z camera - z d) * 0.9 ^ n
  /\ dist c d = dist camera d * 0.9 ^ n
  /\ steps n distance target d = d.
Proof.
  cbv zeta.
  assert (Hc : forall m cam,
             let c := steps m distance target cam in
             let d := desired distance target in
             x c - x d = (x cam - x d) * 0.9 ^ m
             /\ y c - y d = (y cam - y d) * 0.9 ^ m
             /\ z c - z d = (z cam - z d) * 0.9 ^ m).
  { induction m as [|m IH]; intros cam; cbv zeta.
    - cbn. repeat split; lra.
    - cbn [steps pow]. destruct (IH (step distance target cam)) as (Hx & Hy & Hz).
      rewrite Hx, Hy, Hz, camera_step. cbn [x y z].
      set (p := 0.9 ^ m). repeat split; nra. }
  destruct (Hc n camera) as (Hx & Hy & Hz).
  repeat (split; [assumption|]). split.
  - unfold dist, distSq. cbv zeta. rewrite Hx, Hy, Hz.
    set (dx := x camera - x (desired distance target)).
    set (dy := y camera - y (desired distance target)).
    set (dz := z camera - z (desired distance target)).
    assert (Hp : 0 <= 0.9 ^ n) by (apply pow_le; lra).
    replace (dx * 0.9 ^ n * (dx * 0.9 ^ n) + dy * 0.9 ^ n * (dy * 0.9 ^ n)
             + dz * 0.9 ^ n * (dz * 0.9 ^ n))
      with ((dx * dx + dy * dy + dz * dz) * (0.9 ^ n * 0.9 ^ n)) by ring.
    rewrite sqrt_mult_alt.
    + now rewrite (sqrt_square _ Hp).
    + pose proof (sq_ge0 dx). pose proof (sq_ge0 dy). pose proof (sq_ge0 dz).
      lra.
  - destruct (Hc n (desired distance target)) as (Hx' & Hy' & Hz').
    destruct (steps n distance target (desired distance target)) as [a b c].
    destruct (desired distance target) as [a' b' c'].
    cbn [x y z] in *. f_equal; lra.
Qed.

End CameraRig.

(** ** What the scene creates at random *)

Section Creation.
Import Three SceneInit.

Lemma forEach_length {A B : Type} (f : A -> Gen B) rand (l : list A) :
  forall n, List.length (fst (forEach f l rand n)) = List.length l.
Proof.
  induction l as [|a l IH]; intros n; [reflexivity|].
  cbn [forEach]. destruct (f a rand n) as [b n1].
  specialize (IH n1). destruct (forEach f l rand n1) as [bs n2].
  cbn [fst List.length] in *. now rewrite IH.
Qed.

Lemma forEach_draws {A B : Type} (f : A -> Gen B) rand (k : nat) (l : list A) :
  (forall a n, snd (f a rand n) = (k + n)%nat) ->
  forall n, snd (forEach f l rand n) = (k * List.length l + n)%nat.
Proof.
  intros Hk. induction l as [|a l IH]; intros n; [cbn; lia|].
  cbn [forEach]. pose proof (Hk a n) as Ha.
  destruct (f a rand n) as [b n1]. specialize (IH n1).
  destruct (forEach f l rand n1) as [bs n2]. cbn [fst snd List.length] in *.
  lia.
Qed.

Lemma forEach_Forall {A B : Type} (f : A -> Gen B) rand (P : B -> Prop)
      (l : list A) :
  (forall a n, In a l -> P (fst (f a rand n))) ->
  forall n, Forall P (fst (forEach f l rand n)).
Proof.
  induction l as [|a l IH]; intros HP n; [constructor|].
  cbn [forEach]. pose proof (HP a n (or_introl eq_refl)) as Ha.
  destruct (f a rand n) as [b n1].
  specialize (IH (fun a' k Hin => HP a' k (or_intror Hin)) n1).
  destruct (forEach f l rand n1) as [bs n2]. cbn [fst] in *.
  now constructor.
Qed.

Lemma forEach_map {A B C : Type} (f : A -> Gen B) rand (g : B -> C)
      (h : A -> C) (l : list A) :
  (forall a n, g (fst (f a rand n)) = h a) ->
  forall n, List.map g (fst (forEach f l rand n)) = List.map h l.
Proof.
  intros Hg. induction l as [|a l IH]; intros n; [reflexivity|].
  cbn [forEach]. pose proof (Hg a n) as Ha.
  destruct (f a rand n) as [b n1]. specialize (IH n1).
  destruct (forEach f l rand n1) as [bs n2]. cbn [fst List.map] in *.
  now f_equal.
Qed.

(** A draw picks one of the four colours. *)
Lemma pick_colour (r : R) :
  0 <= r < 1 -> exists s, pick r = Some s /\ In s colors.
Proof.
  intros Hr. unfold pick. cbn [List.length colors INR].
  set (q := r * (1 + 1 + 1 + 1)).
  assert (Hq : 0 <= q < 4) by (subst q; lra).
  pose proof (Zfloor_bound q) as [Hlo Hhi].
  assert (H0 : (0 <= Zfloor q)%Z).
  { apply Z.lt_succ_r, lt_IZR. rewrite succ_IZR. lra. }
  assert (H4 : (Zfloor q < 4)%Z) by (apply lt_IZR; lra).
  destruct (Zfloor q) as [|p|p] eqn:Hz; [| |lia].
  - eexists. split; [reflexivity|]. cbn. tauto.
  - assert (Hp : (p = 1 \/ p = 2 \/ p = 3)%positive) by lia.
    destruct Hp as [->|[->| ->]]; eexists; (split; [reflexivity|cbn; tauto]).
Qed.

(** X16.  The crates the scene starts with, whatever [Math.random]
    draws: 48 of them from 141 draws, the first 33 where the wall of the
    frame rule has them, every one at rest at height 0.5 or above and in
    one of the four colours, never without a colour; the 15 of the piles
    on the ground, with x from -30 to 30, z from -10 to 50 and a turn
    about the vertical below a half circle. *)
Theorem crates_as_created (rand : nat -> R) (n : nat)
  (Hrand : unit_draws rand) :
  let cs := fst (crates rand n) in
  List.length cs = 48%nat
  /\ snd (crates rand n) = (141 + n)%nat
  /\ List.map position (firstn 33 cs) = List.map Crates.pos Crates.wall
  /\ Forall (fun c => velocity c = mkVector3 0 0 0
                      /\ 0.5 <= y (position c)
                      /\ exists s, color c = Some s /\ In s colors) cs
  /\ Forall (fun c => y (position c) = 0.5
                      /\ -30 <= x (position c) < 30
                      /\ -10 <= z (position c) < 50
                      /\ x (rotation c) = 0 /\ z (rotation c) = 0
                      /\ 0 <= y (rotation c) < PI) (skipn 33 cs).
Proof.
  cbv zeta. unfold crates.
  pose proof (forEach_length wallCrate rand wallGrid n) as Hlw.
  pose proof (forEach_draws wallCrate rand 2 wallGrid
                ltac:(intros [ix iy] k; reflexivity) n) as Hdw.
  pose proof (forEach_map wallCrate rand position
                (fun xy => mkVector3 (IZR (fst xy) * 1.5 - 20)
                                     (0.5 + IZR (snd xy) * 1.1) 15)
                wallGrid ltac:(intros [ix iy] k; reflexivity) n) as Hmw.
  assert (Hfw : Forall (fun c => velocity c = mkVector3 0 0 0
                                 /\ 0.5 <= y (position c)
                                 /\ exists s, color c = Some s /\ In s colors)
                  (fst (forEach wallCrate wallGrid rand n))).
  { apply forEach_Forall. intros [ix iy] k Hin. unfold wallCrate.
    cbn [fst position velocity color y].
    split; [reflexivity|]. split; [|apply pick_colour, Hrand].
    assert (Hiy : (0 <= iy)%Z).
    { unfold wallGrid in Hin. apply in_flat_map in Hin.
      destruct Hin as (ix' & _ & Hin). apply in_map_iff in Hin.
      destruct Hin as (iy' & [= _ <-] & Hin). cbn [In] in Hin.
      destruct Hin as [<-|[<-|[<-|[]]]]; lia. }
    apply IZR_le in Hiy. lra. }
  destruct (forEach wallCrate wallGrid rand n) as [w n1].
  cbn [fst snd] in Hlw, Hdw, Hmw, Hfw.
  pose proof (forEach_length pileCrate rand (seq 0 15) n1) as Hlp.
  pose proof (forEach_draws pileCrate rand 5 (seq 0 15)
                ltac:(intros i k; reflexivity) n1) as Hdp.
  assert (Hfp : Forall (fun c => (velocity c = mkVector3 0 0 0
                                  /\ 0.5 <= y (position c)
                                  /\ exists s, color c = Some s /\ In s colors)
                                 /\ y (position c) = 0.5
                                 /\ -30 <= x (position c) < 30
                                 /\ -10 <= z (position c) < 50
                                 /\ x (rotation c) = 0 /\ z (rotation c) = 0
                                 /\ 0 <= y (rotation c) < PI)
                  (fst (forEach pileCrate (seq 0 15) rand n1))).
  { apply forEach_Forall. intros i k _. unfold pileCrate.
    cbn [fst position velocity rotation color x y z].
    pose proof (Hrand (1 + k)%nat). pose proof (Hrand (2 + k)%nat).
    pose proof (Hrand (3 + k)%nat). pose proof PI_RGT_0.
    repeat split; try lra; try nra.
    apply pick_colour, Hrand. }
  destruct (forEach pileCrate (seq 0 15) rand n1) as [p n2].
  cbn [fst snd] in *.
  assert (Hw33 : List.length w = 33%nat) by (rewrite Hlw; reflexivity).
  assert (Hp15 : List.length p = 15%nat) by (rewrite Hlp; reflexivity).
  split; [rewrite length_app; lia|].
  split; [rewrite Hdp, Hdw; cbn; lia|].
  assert (Hfirst : firstn 33 (w ++ p) = w).
  { rewrite <- Hw33. rewrite firstn_app, Nat.sub_diag, firstn_all. cbn [firstn].
    apply app_nil_r. }
  assert (Hrest : skipn 33 (w ++ p) = p).
  { rewrite <- Hw33. rewrite skipn_app, Nat.sub_diag, skipn_all. reflexivity. }
  rewrite Hfirst, Hrest. split; [rewrite Hmw; reflexivity|]. split.
  - apply Forall_app. split; [exact Hfw|].
    eapply List.Forall_impl; [|exact Hfp]. intros c H. apply H.
  - eapply List.Forall_impl; [|exact Hfp]. intros c H. apply H.
Qed.

Lemma crates_as_created_witness :
  List.length (fst (crates (fun _ => 1 / 2) 0%nat)) = 48%nat.
Proof.
  refine (proj1 (crates_as_created (fun _ => 1 / 2) 0%nat _)).
  intros k. lra.
Defined.

Lemma omap_id_Forall {A : Type} (P : A -> Prop) (l : list (option A)) :
  Forall (fun o => match o with Some a => P a | None => True end) l ->
  Forall P (omap (fun o => o) l).
Proof.
  induction 1 as [|[a|] l Ha Hl IH]; cbn [omap list_omap];
    [constructor | now constructor | exact IH].
Qed.

Lemma omap_id_length {A : Type} (l : list (option A)) :
  (List.length (omap (fun o => o) l) <= List.length l)%nat.
Proof.
  induction l as [|[a|] l IH]; cbn [omap list_omap List.length]; lia.
Qed.

Lemma forEach_draws_between {A B : Type} (f : A -> Gen B) rand (lo hi : nat)
      (l : list A) :
  (forall a n, (lo + n <= snd (f a rand n) <= hi + n)%nat) ->
  forall n, (lo * List.length l + n <= snd (forEach f l rand n)
             <= hi * List.length l + n)%nat.
Proof.
  intros Hk. induction l as [|a l IH]; intros n; [cbn; lia|].
  cbn [forEach]. pose proof (Hk a n) as Ha.
  destruct (f a rand n) as [b n1]. specialize (IH n1).
  destruct (forEach f l rand n1) as [bs n2]. cbn [fst snd List.length] in *.
  lia.
Qed.

Lemma dist_ge (a b : Vector3) (r : R) :
  0 <= r -> r * r <= distSq a b -> r <= dist a b.
Proof.
  intros Hr Hsq. unfold dist. rewrite <- (sqrt_square r Hr).
  now apply sqrt_le_1_alt.
Qed.

Lemma not_both_below (a b p q : R) :
  JS.ltb (Rabs a) p && JS.ltb (Rabs b) q = false ->
  (a <= - p \/ p <= a) \/ (b <= - q \/ q <= b).
Proof.
  intros H. apply andb_false_iff in H. destruct H as [H|H];
    apply JS.ltb_false in H; [left|right];
    unfold Rabs in H; destruct (Rcase_abs _); lra.
Qed.

(** One pass of the loop of [trees]. *)
Lemma tree_placed (rand : nat -> R) (Hrand : unit_draws rand) (i n : nat) :
  match fst (tree i rand n) with
  | None => True
  | Some t =>
      let '(tx, ty, tz) := tree_position t in
      ty = 0 /\ -80 <= tx < 80 /\ -80 <= tz < 80
      /\ ~ (Rabs tx < 15 /\ Rabs tz < 45)
      /\ ~ (Rabs tz < 15 /\ Rabs tx < 45)
      /\ 0.6 <= tree_scale t < 1.4
      /\ Forall (fun zone =>
                   Triggers.activationRadius
                   <= dist (mkVector3 tx ty tz) (Triggers.pos zone))
                Triggers.triggers
  end.
Proof.
  unfold tree. cbv zeta.
  set (tx := (rand n - 0.5) * 160). set (tz := (rand (1 + n)%nat - 0.5) * 160).
  destruct (JS.ltb (Rabs tx) 15 && JS.ltb (Rabs tz) 45) eqn:H1; [exact I|].
  destruct (JS.ltb (Rabs tz) 15 && JS.ltb (Rabs tx) 45) eqn:H2; [exact I|].
  cbn [fst tree_position tree_scale].
  pose proof (Hrand n). pose proof (Hrand (1 + n)%nat).
  pose proof (Hrand (2 + n)%nat).
  split; [reflexivity|]. split; [subst tx; lra|]. split; [subst tz; lra|].
  split; [|split; [|split; [lra|]]].
  - intros [Ha Hb]. apply JS.ltb_true in Ha, Hb. rewrite Ha, Hb in H1.
    discriminate.
  - intros [Ha Hb]. apply JS.ltb_true in Ha, Hb. rewrite Ha, Hb in H2.
    discriminate.
  - apply not_both_below in H1, H2. unfold Triggers.triggers.
    repeat apply List.Forall_cons; try apply List.Forall_nil;
      cbn [Triggers.pos]; unfold Triggers.activationRadius;
      apply dist_ge; try lra; unfold distSq; cbn [x y z];
      destruct H1 as [[?|?]|[?|?]]; destruct H2 as [[?|?]|[?|?]];
      match goal with
      | |- _ <= ?dx * ?dx + ?dy * ?dy + ?dz * ?dz =>
          pose proof (sq_ge0 dx); pose proof (sq_ge0 dy);
          pose proof (sq_ge0 dz);
          first [ assert (6 * 6 <= dx * dx) by nra
                | assert (6 * 6 <= dz * dz) by nra ];
          lra
      end.
Qed.

(** X17.  The trees of the scene, whatever [Math.random] draws: at most
    60, from 120 to 180 draws, on the ground within 80 of the origin on
    both axes, none on the two roads that cross at the origin (15 wide
    to each side and 45 long to each end), each with a scale from 0.6
    to 1.4, and none within the activation radius of a trigger zone. *)
Theorem trees_keep_off_the_roads (rand : nat -> R) (n : nat)
  (Hrand : unit_draws rand) :
  let ts := fst (trees rand n) in
  (List.length ts <= 60)%nat
  /\ (120 + n <= snd (trees rand n) <= 180 + n)%nat
  /\ Forall (fun t =>
               let '(tx, ty, tz) := tree_position t in
               ty = 0 /\ -80 <= tx < 80 /\ -80 <= tz < 80
               /\ ~ (Rabs tx < 15 /\ Rabs tz < 45)
               /\ ~ (Rabs tz < 15 /\ Rabs tx < 45)
               /\ 0.6 <= tree_scale t < 1.4
               /\ Forall (fun zone =>
                            Triggers.activationRadius
                            <= dist (mkVector3 tx ty tz) (Triggers.pos zone))
                         Triggers.triggers) ts.
Proof.
  cbv zeta. unfold trees.
  pose proof (forEach_length tree rand (seq 0 60) n) as Hl.
  pose proof (forEach_draws_between tree rand 2 3 (seq 0 60)) as Hd.
  specialize (Hd ltac:(intros i k; unfold tree; cbv zeta;
                       repeat destruct (_ && _); cbn [snd]; lia) n).
  destruct (forEach tree (seq 0 60) rand n) as [ts n'] eqn:Hts.
  cbn [fst snd] in *. split; [|split].
  - pose proof (omap_id_length ts). rewrite Hl in *. cbn in *. lia.
  - cbn in Hd. lia.
  - apply omap_id_Forall.
    replace ts with (fst (forEach tree (seq 0 60) rand n)) by now rewrite Hts.
    apply forEach_Forall. intros i k _. apply (tree_placed rand Hrand i k).
Qed.

(** The first pass of the loop, when it places a tree, places the first
    tree of the list. *)
Lemma trees_first (rand : nat -> R) (n : nat) (t : Tree) :
  fst (tree 0 rand n) = Some t -> In t (fst (trees rand n)).
Proof.
  intros Ht. unfold trees.
  change (seq 0 60) with (0%nat :: seq 1 59). cbn [forEach].
  destruct (tree 0 rand n) as [o n1]. cbn [fst] in Ht. subst o.
  destruct (forEach tree (seq 1 59) rand n1) as [ts n2].
  cbn [fst omap list_omap]. now left.
Qed.

(** Every draw an eighth: each pass places a tree at (-60, 0, -60), off
    the roads, at more than 6 from the five zones. *)
Lemma trees_keep_off_the_roads_witness :
  let t := mkTree ((1 / 8 - 0.5) * 160, 0, (1 / 8 - 0.5) * 160)
                  (0.6 + 1 / 8 * 0.8) in
  In t (fst (trees (fun _ => 1 / 8) 0%nat))
  /\ ~ (Rabs ((1 / 8 - 0.5) * 160) < 15 /\ Rabs ((1 / 8 - 0.5) * 160) < 45)
  /\ Forall (fun zone =>
               Triggers.activationRadius
               <= dist (mkVector3 ((1 / 8 - 0.5) * 160) 0 ((1 / 8 - 0.5) * 160))
                       (Triggers.pos zone))
            Triggers.triggers.
Proof.
  cbv zeta.
  assert (Hin : In (mkTree ((1 / 8 - 0.5) * 160, 0, (1 / 8 - 0.5) * 160)
                           (0.6 + 1 / 8 * 0.8))
                   (fst (trees (fun _ => 1 / 8) 0%nat))).
  { apply trees_first. unfold tree. cbv zeta.
    assert (Ha : Rabs ((1 / 8 - 0.5) * 160) = 60)
      by (rewrite Rabs_left; lra).
    rewrite Ha.
    replace (JS.ltb 60 15) with false by (symmetry; apply JS.ltb_false; lra).
    cbn [andb]. reflexivity. }
  split; [exact Hin|].
  assert (Hrand : unit_draws (fun _ => 1 / 8)) by (intros k; lra).
  pose proof (proj2 (proj2 (trees_keep_off_the_roads (fun _ => 1 / 8) 0%nat
                              Hrand))) as Hall.
  cbv zeta in Hall. rewrite List.Forall_forall in Hall.
  specialize (Hall _ Hin). cbn [tree_position] in Hall.
  destruct Hall as (_ & _ & _ & Hroad & _ & _ & Hzones).
  split; [exact Hroad | exact Hzones].
Defined.

End Creation.

(** ** Prompts, panels and the zoom *)

Section Shell.
Import Three Triggers.

Lemma active_inRange carPos t :
  active (toArray (pos t)) carPos = inRange carPos t.
Proof.
  unfold active, toArray, inRange, dist.
  rewrite (distSq_sym carPos). now destruct (pos t).
Qed.

(** What Enter finds is a zone of the scene whose flag is set. *)
Lemma enter_found (carPos : Vector3) (s : AppSection) :
  handleKeyDown triggers carPos "Enter" = Some s ->
  exists t, In t triggers /\ section t = s
            /\ active (toArray (pos t)) carPos = true.
Proof.
  unfold handleKeyDown. cbn [String.eqb Ascii.eqb Bool.eqb].
  destruct (List.find (inRange carPos) triggers) as [t|] eqn:Hf;
    [|discriminate].
  intros [= <-]. apply find_first in Hf.
  destruct Hf as (pre & post & Hl & _ & Ht).
  exists t. rewrite active_inRange. repeat split; [|exact Ht].
  rewrite Hl. apply in_or_app. right. now left.
Qed.

Lemma enter_not_home (carPos : Vector3) (s : AppSection) :
  handleKeyDown triggers carPos "Enter" = Some s -> s <> HOME.
Proof.
  intros H. apply enter_found in H. destruct H as (t & Hin & <- & _).
  unfold triggers in Hin. cbn [In] in Hin.
  repeat (destruct Hin as [<-|Hin]; [discriminate|]). contradiction.
Qed.

(** X18.  In the scene, Enter opens a panel exactly when a zone shows
    its prompt, and it opens the panel of that zone: the section handed
    to [onSectionEnter] is the section of a zone whose [active] flag the
    frame sets at the same vehicle position, at most one zone has the
    flag set, and the section is never [HOME]. *)
Theorem enter_opens_the_prompted_panel (carPos : Vector3) (s : AppSection) :
  (handleKeyDown triggers carPos "Enter" = Some s
   <-> exists t, In t triggers /\ section t = s
                 /\ active (toArray (pos t)) carPos = true)
  /\ (forall t u, In t triggers -> In u triggers ->
                  active (toArray (pos t)) carPos = true ->
                  active (toArray (pos u)) carPos = true -> t = u)
  /\ (handleKeyDown triggers carPos "Enter" = Some s -> s <> HOME).
Proof.
  split; [split; [apply enter_found|]|split].
  - intros (t & Hin & <- & Hact). rewrite active_inRange in Hact.
    unfold handleKeyDown. cbn [String.eqb Ascii.eqb Bool.eqb].
    destruct (List.find (inRange carPos) triggers) as [u|] eqn:Hf.
    + apply find_first in Hf. destruct Hf as (pre & post & Hl & _ & Hu).
      assert (Hinu : In u triggers)
        by (rewrite Hl; apply in_or_app; right; now left).
      now rewrite (triggers_apart carPos t u Hin Hinu Hact Hu).
    + apply find_nothing in Hf. rewrite List.Forall_forall in Hf.
      rewrite (Hf t Hin) in Hact. discriminate.
  - intros t u Ht Hu Hat Hau. rewrite active_inRange in Hat, Hau.
    exact (triggers_apart carPos t u Ht Hu Hat Hau).
  - apply enter_not_home.
Qed.

Lemma app_distance_range (events : list App.Event) : forall s,
  5 <= App.distance s <= 40 ->
  5 <= App.distance (fold_left App.handle events s) <= 40.
Proof.
  induction events as [|e events IH]; intros s Hs; [exact Hs|].
  cbn [fold_left]. apply IH. destruct e as [key carPos|deltaY|];
    cbn [App.handle].
  - destruct (handleKeyDown triggers carPos key); exact Hs.
  - cbn [App.distance]. apply onWheel_range, Hs.
  - exact Hs.
Qed.

(** X19.  The shell, from its start through any keys, wheel events and
    uses of the close button: the zoom distance stays from 5 to 40; with
    a panel open the wheel changes nothing; closing keeps the distance;
    a key changes the section only to that of a zone, never to [HOME],
    and does so with a panel open as well; and the overlay holds one
    panel exactly when the section is not [HOME], nothing otherwise. *)
Theorem shell_keeps_zoom_and_one_panel (events : list App.Event) :
  let s := fold_left App.handle events App.start in
  5 <= App.distance s <= 40
  /\ (App.isOverlayOpen (App.activeSection s) = true ->
      forall deltaY, App.handle s (App.Wheel deltaY) = s)
  /\ App.handle s App.Close = App.mkState HOME (App.distance s)
  /\ (forall key carPos,
        let s' := App.handle s (App.Key key carPos) in
        App.distance s' = App.distance s
        /\ match handleKeyDown triggers carPos key with
           | Some section =>
               App.activeSection s' = section /\ section <> HOME
               /\ key = "Enter"%string
           | None => s' = s
           end)
  /\ match App.Overlay (App.activeSection s) with
     | None => App.activeSection s = HOME
     | Some panels =>
         List.length panels = 1%nat /\ App.activeSection s <> HOME
     end.
Proof.
  cbv zeta.
  pose proof (app_distance_range events App.start
                ltac:(unfold App.start, Camera.initialDistance;
                      cbn [App.distance]; lra)) as Hd.
  set (s := fold_left App.handle events App.start) in *.
  split; [exact Hd|]. split; [|split; [reflexivity|split]].
  - intros Hopen deltaY. cbn [App.handle]. unfold Camera.onWheel.
    rewrite Hopen. now destruct s.
  - intros key carPos. cbn [App.handle].
    destruct (handleKeyDown triggers carPos key) as [sec|] eqn:Hk;
      [|split; reflexivity].
    cbn [App.distance App.activeSection].
    split; [reflexivity|]. split; [reflexivity|].
    assert (Hkey : key = "Enter"%string).
    { unfold handleKeyDown in Hk.
      destruct (String.eqb key "Enter") eqn:He; [|discriminate].
      now apply String.eqb_eq in He. }
    split; [|exact Hkey]. subst key.
    exact (enter_not_home carPos sec Hk).
  - destruct (App.activeSection s); cbn; repeat split; discriminate.
Qed.

End Shell.

(** ** What the gateway is sent, and what the panels show *)

Section Requests.
Import Gemini Panels.
Local Open Scope string_scope.

Lemma split_whole (sep : Ascii.ascii) (s : string) :
  ~ In sep (list_ascii_of_string s) -> split sep s = [s].
Proof.
  induction s as [|c s IH]; intros Hs; [reflexivity|].
  cbn [split list_ascii_of_string] in *.
  destruct (Ascii.eqb c sep) eqn:Hc.
  - apply Ascii.eqb_eq in Hc. subst c. exfalso. apply Hs. now left.
  - rewrite IH; [reflexivity|]. intros Hin. apply Hs. now right.
Qed.

Lemma split_first (sep : Ascii.ascii) (h p : string) :
  ~ In sep (list_ascii_of_string h) ->
  split sep (h ++ String sep p) = h :: split sep p.
Proof.
  induction h as [|c h IH]; intros Hh.
  - change (EmptyString ++ String sep p) with (String sep p).
    cbn [split]. now rewrite Ascii.eqb_refl.
  - change (String c h ++ String sep p) with (String c (h ++ String sep p)).
    cbn [split list_ascii_of_string] in *.
    destruct (Ascii.eqb c sep) eqn:Hc.
    + apply Ascii.eqb_eq in Hc. subst c. exfalso. apply Hh. now left.
    + rewrite IH; [reflexivity|]. intros Hin. apply Hh. now right.
Qed.

(** [base64Image.split(',')[1]] *)
Lemma payload_of_data_url (header payload : string) :
  ~ In ","%char (list_ascii_of_string header) ->
  ~ In ","%char (list_ascii_of_string payload) ->
  nth_error (split ","%char (header ++ String ","%char payload)) 1
  = Some payload.
Proof.
  intros Hh Hp. rewrite split_first by exact Hh.
  cbn [nth_error]. now rewrite split_whole by exact Hp.
Qed.

(** X20.  What the two functions of the gateway send.  When the file
    reads as a data URL, a header and a payload with one comma in
    between, the image bytes sent are the payload, with the type of the
    file as MIME type; [editImage] sends the prompt as it is and
    [generateVideo] sends it unless it is empty, then a fixed sentence,
    and asks for one 1080p video, 16:9 unless told otherwise.  When what
    was read has no comma the request is sent all the same, with no
    image bytes. *)
Theorem gateway_sends_the_payload
  (env : Environment) (imageFile : File) (prompt read : string) :
  let sent (bytes : option string) :=
    (editImage env imageFile prompt
     = rbind (generateContent env
                (mkContentRequest "gemini-2.5-flash-image"
                   [ mkPart (Some (mkInlineData bytes
                                     (Some (file_type imageFile)))) None;
                     mkPart None (Some prompt) ]))
             (fun response => extractImage (responseParts response)))
    /\ forall fuel aspectRatio,
         generateVideo env fuel imageFile prompt aspectRatio
         = match generateVideos env
                   (mkVideoRequest "veo-3.1-fast-generate-preview"
                      (match prompt with
                       | EmptyString => "Animate this image cinematographically"
                       | _ => prompt
                       end)
                      bytes (file_type imageFile) 1 "1080p"
                      (match aspectRatio with
                       | Some a => a
                       | None => Landscape16x9
                       end))
           with
           | Throw e => Some (Throw e)
           | Ok operation =>
               match pollLoop env fuel 0 operation with
               | None => None
               | Some (Throw e) => Some (Throw e)
               | Some (Ok operation) => Some (download env operation)
               end
           end in
  readAsDataURL env imageFile = Ok read ->
  (forall header payload,
     read = header ++ String ","%char payload ->
     ~ In ","%char (list_ascii_of_string header) ->
     ~ In ","%char (list_ascii_of_string payload) ->
     sent (Some payload))
  /\ (~ In ","%char (list_ascii_of_string read) -> sent None).
Proof.
  cbv zeta. intros Hread.
  assert (Hsent : forall bytes,
             nth_error (split ","%char read) 1 = bytes ->
             (editImage env imageFile prompt
              = rbind (generateContent env
                         (mkContentRequest "gemini-2.5-flash-image"
                            [ mkPart (Some (mkInlineData bytes
                                              (Some (file_type imageFile)))) None;
                              mkPart None (Some prompt) ]))
                      (fun response => extractImage (responseParts response)))
             /\ forall fuel aspectRatio,
                  generateVideo env fuel imageFile prompt aspectRatio
                  = match generateVideos env
                            (mkVideoRequest "veo-3.1-fast-generate-preview"
                               (match prompt with
                                | EmptyString =>
                                    "Animate this image cinematographically"
                                | _ => prompt
                                end)
                               bytes (file_type imageFile) 1 "1080p"
                               (match aspectRatio with
                                | Some a => a
                                | None => Landscape16x9
                                end))
                    with
                    | Throw e => Some (Throw e)
                    | Ok operation =>
                        match pollLoop env fuel 0 operation with
                        | None => None
                        | Some (Throw e) => Some (Throw e)
                        | Some (Ok operation) => Some (download env operation)
                        end
                    end).
  { intros bytes <-. split.
    - unfold editImage, fileToBase64. rewrite Hread. reflexivity.
    - intros fuel aspectRatio. unfold generateVideo, fileToBase64.
      rewrite Hread. cbv zeta. unfold videoRequest, truthy.
      destruct aspectRatio, prompt; reflexivity. }
  split.
  - intros header payload -> Hh Hp. apply Hsent.
    now apply payload_of_data_url.
  - intros Hnone. apply Hsent. now rewrite split_whole by exact Hnone.
Qed.

Lemma gateway_sends_the_payload_witness :
  editImage Samples.envGood Samples.photo "make it night"
  = rbind (generateContent Samples.envGood
             (mkContentRequest "gemini-2.5-flash-image"
                [ mkPart (Some (mkInlineData (Some "AAAA")
                                  (Some "image/jpeg"))) None;
                  mkPart None (Some "make it night") ]))
          (fun response => extractImage (responseParts response)).
Proof.
  refine (proj1 (proj1 (gateway_sends_the_payload Samples.envGood
                          Samples.photo "make it night"
                          "data:image/jpeg;base64,AAAA" eq_refl)
                   "data:image/jpeg;base64" "AAAA" eq_refl _ _)).
  - cbn. intuition discriminate.
  - cbn. intuition discriminate.
Defined.

End Requests.

Section PanelRuns.
Import Gemini Panels.
Local Open Scope string_scope.

Lemma extractImage_png (ps : list Part) (url : string) :
  extractImage ps = Ok url ->
  exists i, In i ps /\ inlineData i <> None
            /\ exists bytes, url = "data:image/png;base64," ++ bytes.
Proof.
  induction ps as [|part ps IH]; cbn [extractImage]; [discriminate|].
  destruct (inlineData part) as [i|] eqn:Hi.
  - intros [= <-]. exists part. split; [now left|]. split; [congruence|].
    now eexists.
  - intros H. destruct (IH H) as (i & Hin & Hd & Hurl).
    exists i. split; [now right|]. now split.
Qed.

Lemma editImage_png env imageFile prompt url :
  editImage env imageFile prompt = Ok url ->
  exists bytes, url = "data:image/png;base64," ++ bytes.
Proof.
  unfold editImage. destruct (fileToBase64 env imageFile); [|discriminate].
  cbn [rbind]. destruct (generateContent env _); [|discriminate].
  cbn [rbind]. intros H. apply extractImage_png in H.
  destruct H as (_ & _ & _ & H). exact H.
Qed.

(** X21.  A click on the button of the video panel.  Without a file
    nothing happens.  The gateway is asked for a video exactly when
    there is a file and the key check answers yes, once, with that file
    and the prompt; otherwise the panel stays as it is, and with the
    answer no the only thing done is to open the key selection, or to
    alert where there is none.  While the gateway is awaited the panel
    is generating, shows no error and keeps the video it had.  When the
    handler returns after asking, the panel is not generating, has no
    progress line and holds either a video and no error or no video and
    an error that is never empty: the message thrown, or a fixed one
    for an empty message.  The handler's promise is rejected only when
    the key check or the key selection throws. *)
Theorem video_panel_outcomes
  (env : Environment) (aistudio : option AiStudio) (fuel : nat)
  (file : option File) (prompt : string) (state : VideoGenerationState) :
  let r := veoHandleGenerate env aistudio fuel file prompt state in
  let asked :=
    existsb (fun c => match c with GenerateVideo _ _ => true | _ => false end)
            (calls r) in
  (file = None -> r = mkRun state [] Returned)
  /\ (asked = true
      <-> exists f, file = Some f /\ checkApiKey env aistudio = Ok true)
  /\ (asked = false -> after r = state)
  /\ (checkApiKey env aistudio = Ok false -> file <> None ->
      calls r = fst (promptApiKeySelection aistudio)
      /\ (calls r = [OpenSelectKey] \/ exists m, calls r = [Alert m]))
  /\ (asked = true ->
      exists f,
        file = Some f /\ calls r = [GenerateVideo f prompt]
        /\ match ending r with
           | Waiting =>
               generateVideo env fuel f prompt None = None
               /\ v_isGenerating (after r) = true
               /\ v_error (after r) = None
               /\ videoUrl (after r) = videoUrl state
           | Returned =>
               v_isGenerating (after r) = false
               /\ progress (after r) = EmptyString
               /\ match generateVideo env fuel f prompt None with
                  | Some (Ok url) =>
                      videoUrl (after r) = Some url
                      /\ v_error (after r) = None
                  | Some (Throw m) =>
                      videoUrl (after r) = None
                      /\ exists shown,
                           v_error (after r) = Some shown
                           /\ shown <> EmptyString
                           /\ errorShown (Some shown) = Some shown
                           /\ (m <> EmptyString -> shown = m)
                  | None => False
                  end
           | Rejected _ => False
           end)
  /\ (forall e, ending r = Rejected e ->
        asked = false
        /\ (checkApiKey env aistudio = Throw e
            \/ (checkApiKey env aistudio = Ok false
                /\ snd (promptApiKeySelection aistudio) = Throw e))).
Proof.
  cbv zeta. unfold veoHandleGenerate.
  destruct file as [f|].
  2:{ cbn. repeat split; try discriminate; try congruence;
        try (intros (f & Hf & _); discriminate);
        try (intros _ H; contradiction). }
  destruct (checkApiKey env aistudio) as [[|]|e0] eqn:Hkey.
  - (* the key check answers yes *)
    destruct (generateVideo env fuel f prompt None) as [[url|m]|] eqn:Hg;
      cbn [calls after ending existsb orb v_isGenerating videoUrl v_error
           progress].
    + repeat split; try discriminate; try (now eexists).
      intros _. exists f. rewrite Hg. repeat split.
    + split; [discriminate|]. split; [split; [now eexists|reflexivity]|].
      split; [discriminate|]. split; [discriminate|].
      split; [|discriminate].
      intros _. exists f. rewrite Hg.
      split; [reflexivity|]. split; [reflexivity|].
      split; [reflexivity|]. split; [reflexivity|].
      split; [reflexivity|].
      destruct m as [|c m]; cbn [truthy]; eexists;
        (split; [reflexivity|]); (split; [discriminate|]);
        (split; [reflexivity|]); intros H; congruence.
    + repeat split; try discriminate; try (now eexists).
  - (* the key check answers no *)
    unfold promptApiKeySelection.
    destruct aistudio as [[has [answer|]]|]; cbn.
    all: repeat split; try discriminate; try congruence; try tauto.
    all: try (intros (f' & _ & H); discriminate).
    all: try (left; reflexivity).
    all: try (right; now eexists).
    all: try (destruct answer; discriminate).
    all: try (right; split; [reflexivity|]; destruct answer; congruence).
  - (* the key check throws *)
    cbn. repeat split; try discriminate; try congruence;
      try (intros (f' & _ & H); discriminate);
      try (left; congruence).
Qed.

(** X22.  A click on the button of the image panel.  The gateway is
    asked for an edit exactly when there is a file and the prompt is not
    empty, once, with both; otherwise the panel stays as it is.  The
    handler always returns: a failure of the gateway ends in the state,
    not in a rejected promise.  After asking, the panel is not
    generating and holds either a PNG data URL and no error, or no image
    and the message thrown; a failure with an empty message leaves the
    panel with no image and no error line to show. *)
Theorem image_panel_outcomes
  (env : Environment) (file : option File) (prompt : string)
  (state : ImageEditingState) :
  let r := imageHandleGenerate env file prompt state in
  ending r = Returned
  /\ (calls r = [] <-> file = None \/ prompt = EmptyString)
  /\ (calls r = [] -> after r = state)
  /\ (calls r <> [] ->
      exists f,
        file = Some f /\ calls r = [EditImage f prompt]
        /\ i_isGenerating (after r) = false
        /\ match editImage env f prompt with
           | Ok url =>
               resultImageUrl (after r) = Some url
               /\ i_error (after r) = None
               /\ exists bytes, url = "data:image/png;base64," ++ bytes
           | Throw m =>
               resultImageUrl (after r) = None
               /\ i_error (after r) = Some m
               /\ errorShown (i_error (after r))
                  = match m with EmptyString => None | _ => Some m end
           end).
Proof.
  cbv zeta. unfold imageHandleGenerate.
  destruct file as [f|];
    [|cbn; repeat split; try tauto; try congruence].
  destruct prompt as [|c prompt]; cbn [truthy negb];
    [cbn; repeat split; try tauto; try congruence|].
  destruct (editImage env f (String c prompt)) as [url|m] eqn:He;
    cbn [calls after ending i_isGenerating resultImageUrl i_error].
  - split; [reflexivity|]. split; [split; [discriminate|]|].
    { intros [H|H]; discriminate. }
    split; [discriminate|]. intros _. exists f. rewrite He.
    repeat (split; [reflexivity|]).
    exact (editImage_png env f (String c prompt) url He).
  - split; [reflexivity|]. split; [split; [discriminate|]|].
    { intros [H|H]; discriminate. }
    split; [discriminate|]. intros _. exists f. rewrite He.
    repeat (split; [reflexivity|]).
    destruct m; reflexivity.
Qed.

End PanelRuns.

